(** * globes: projections, orientation, drag sessions and the relief overlay

    A shallow embedding of [globes] (the module of the earth viewer that
    builds a globe object per named projection) and the properties of it
    that the design document states, followed by properties of the rest of
    the module and of the catalog of datasets that the development server
    generates.

    Conventions of the embedding.

    - A JavaScript number is a [number]: an exact rational, or one of
      [NaN], [PInf], [NInf].  Arithmetic follows IEEE 754 on the special
      values; on finite values it is exact, so binary64 rounding, overflow
      and the sign of zero are abstracted away (a zero divisor is [+0]) and
      a decimal literal is the rational it spells.  The one exception is
      the product of a source alpha and [0.7] in the pixel loops, which is
      rounded to binary64, since the byte that is stored depends on it.
    - The [d3] projection object is external to the module.  It is a record
      of the parameters its accessors get and set, an accessor returning
      what was last set (the reduction of angles to a turn and the
      conversion to radians inside [d3] are not modelled); what [d3]
      computes from the parameters (fresh projections, [invert], the bounds
      of the sphere) is the interface [D3].
    - A method that can throw returns a [result]; code that mutates the
      globe takes the globe and returns the new one. *)

From Stdlib Require Import ZArith QArith Qround Qabs Lqa Lia.
From Stdlib.Strings Require Import Ascii String Byte.
From stdpp Require Import base option list gmap strings sorting.
From Stdlib Require Floats.

Local Open Scope Z_scope.

(** ** Numbers *)

Inductive number : Type :=
  | NaN
  | NInf
  | Fin (q : Q)
  | PInf.

Declare Scope num_scope.
Delimit Scope num_scope with num.
Bind Scope num_scope with number.

Definition zn (z : Z) : number := Fin (inject_Z z).

Module Num.

Definition neg (a : number) : number :=
  match a with
  | NaN => NaN
  | NInf => PInf
  | PInf => NInf
  | Fin q => Fin (Qred (- q))
  end.

Definition add (a b : number) : number :=
  match a, b with
  | NaN, _ | _, NaN => NaN
  | PInf, NInf | NInf, PInf => NaN
  | PInf, _ | _, PInf => PInf
  | NInf, _ | _, NInf => NInf
  | Fin x, Fin y => Fin (Qred (x + y))
  end.

Definition sub (a b : number) : number := add a (neg b).

(** The sign of a rational as a comparison with zero. *)
Definition sgn (q : Q) : comparison := (Qnum q ?= 0)%Z.

(** An infinity with the sign of [s], [NaN] for a zero. *)
Definition inf_of (s : comparison) (flip : bool) : number :=
  match s, flip with
  | Eq, _ => NaN
  | Gt, false | Lt, true => PInf
  | Gt, true | Lt, false => NInf
  end.

Definition mul (a b : number) : number :=
  match a, b with
  | NaN, _ | _, NaN => NaN
  | Fin x, Fin y => Fin (Qred (x * y))
  | PInf, Fin y | Fin y, PInf => inf_of (sgn y) false
  | NInf, Fin y | Fin y, NInf => inf_of (sgn y) true
  | PInf, PInf | NInf, NInf => PInf
  | PInf, NInf | NInf, PInf => NInf
  end.

Definition div (a b : number) : number :=
  match a, b with
  | NaN, _ | _, NaN => NaN
  | Fin x, Fin y =>
      match sgn y with
      | Eq => inf_of (sgn x) false
      | _ => Fin (Qred (x / y))
      end
  | Fin _, (PInf | NInf) => Fin 0
  | PInf, Fin y => match sgn y with Lt => NInf | _ => PInf end
  | NInf, Fin y => match sgn y with Lt => PInf | _ => NInf end
  | (PInf | NInf), (PInf | NInf) => NaN
  end.

(** [a < b], [a <= b] and [a === b]: false as soon as one side is [NaN]. *)
Definition ltb (a b : number) : bool :=
  match a, b with
  | NaN, _ | _, NaN => false
  | _, NInf | PInf, _ => false
  | NInf, _ | _, PInf => true
  | Fin x, Fin y => negb (Qle_bool y x)
  end.

Definition leb (a b : number) : bool :=
  match a, b with
  | NaN, _ | _, NaN => false
  | NInf, _ | _, PInf => true
  | _, NInf | PInf, _ => false
  | Fin x, Fin y => Qle_bool x y
  end.

Definition eqb (a b : number) : bool :=
  match a, b with
  | NInf, NInf | PInf, PInf => true
  | Fin x, Fin y => Qeq_bool x y
  | _, _ => false
  end.

Definition isFinite (a : number) : bool :=
  match a with Fin _ => true | _ => false end.

(** [Math.floor], [Math.ceil], [Math.round] (halves go up). *)
Definition floor (a : number) : number :=
  match a with Fin q => zn (Qfloor q) | _ => a end.

Definition ceil (a : number) : number :=
  match a with Fin q => zn (Qceiling q) | _ => a end.

Definition round (a : number) : number :=
  match a with Fin q => zn (Qfloor (q + (1 # 2))) | _ => a end.

(** The integer nearest to a rational, the even one at a tie. *)
Definition nearest_even (x : Q) : Z :=
  let f := Qfloor x in
  match ((x - inject_Z f) ?= (1 # 2))%Q with
  | Lt => f
  | Gt => f + 1
  | Eq => if Z.even f then f else f + 1
  end.

(** The binary64 value nearest to a rational: a significand of 53 bits, the
    even one at a tie, gradual underflow below [2^-1022] and an infinity
    from [2^1024] on. *)
Definition binary64 (q : Q) : number :=
  match Qnum q with
  | Z0 => Fin 0
  | _ =>
      let m := Qabs q in
      let e0 := Z.log2 (Qnum m) - Z.log2 (Zpos (Qden m)) in
      let e := if Qle_bool (Qpower 2 e0) m then e0 else e0 - 1 in
      let t := Z.max (e - 52) (-1074) in
      let v := (inject_Z (nearest_even (m / Qpower 2 t)) * Qpower 2 t)%Q in
      if Qle_bool (Qpower 2 1024) v
      then (if Qle_bool 0 q then PInf else NInf)
      else Fin (Qred (if Qle_bool 0 q then v else - v))
  end.

(** [a * b] rounded to binary64, for a product whose rounding shows. *)
Definition mul64 (a b : number) : number :=
  match mul a b with
  | Fin q => binary64 q
  | x => x
  end.

(** [Math.max] and [Math.min] of two arguments. *)
Definition max (a b : number) : number :=
  match a, b with
  | NaN, _ | _, NaN => NaN
  | _, _ => if leb a b then b else a
  end.

Definition min (a b : number) : number :=
  match a, b with
  | NaN, _ | _, NaN => NaN
  | _, _ => if leb a b then a else b
  end.

End Num.

Notation "a + b" := (Num.add a b) : num_scope.
Notation "a - b" := (Num.sub a b) : num_scope.
Notation "a * b" := (Num.mul a b) : num_scope.
Notation "a / b" := (Num.div a b) : num_scope.
Notation "- a" := (Num.neg a) : num_scope.
Notation "a <? b" := (Num.ltb a b) : num_scope.
Notation "a <=? b" := (Num.leb a b) : num_scope.
Notation "a >=? b" := (Num.leb b a) : num_scope.

(** Two numbers are the same value: the same special value, or rationals
    equal as fractions. *)
Definition same (a b : number) : Prop :=
  match a, b with
  | NaN, NaN | NInf, NInf | PInf, PInf => True
  | Fin x, Fin y => x == y
  | _, _ => False
  end.

Infix "=n=" := same (at level 70, no associativity).

(** ** Strings: split, join, and the conversions between strings and numbers *)

Local Open Scope string_scope.

(** [s.split(",")]: the pieces between the separators; one piece, the empty
    string, for the empty string. *)
Fixpoint split (sep : ascii) (s : string) : list string :=
  match s with
  | "" => [""]
  | String c s' =>
      if Ascii.eqb c sep then "" :: split sep s'
      else match split sep s' with
           | [] => [String c ""]
           | p :: ps => String c p :: ps
           end
  end.

(** [l.join(",")]. *)
Definition join (sep : string) (l : list string) : string := String.concat sep l.

(** The digits of the decimal notation of numbers, printed and read. *)
Module Digits.

Local Open Scope N_scope.

Definition digit_char (d : N) : ascii := ascii_of_N (48 + d).

Definition digit_val (c : ascii) : option N :=
  let n := N_of_ascii c in
  if (48 <=? n) && (n <=? 57) then Some (n - 48) else None.

(** The decimal digits of [n], most significant first; ["0"] for zero. *)
Fixpoint digits_fuel (fuel : nat) (n : N) (acc : string) : string :=
  match fuel with
  | O => acc
  | S f =>
      let acc' := String (digit_char (n mod 10)) acc in
      if n / 10 =? 0 then acc' else digits_fuel f (n / 10) acc'
  end.

Definition digits (n : N) : string :=
  digits_fuel (S (N.to_nat (N.log2 n))) n "".

(** Reads the longest run of decimal digits at the head of [s], continuing
    the value [acc]; returns the value, the number of digits read (added
    to [cnt]) and the rest of the string. *)
Fixpoint read_digits (s : string) (acc : N) (cnt : nat) : N * nat * string :=
  match s with
  | "" => (acc, cnt, "")
  | String c s' =>
      match digit_val c with
      | Some d => read_digits s' (acc * 10 + d) (S cnt)
      | None => (acc, cnt, s)
      end
  end.

(** A digit of a literal in base 2, 8 or 16. *)
Definition radix_val (c : ascii) : option N :=
  let n := N_of_ascii c in
  if (48 <=? n) && (n <=? 57) then Some (n - 48)
  else if (97 <=? n) && (n <=? 102) then Some (n - 87)
  else if (65 <=? n) && (n <=? 70) then Some (n - 55)
  else None.

Fixpoint read_radix (base : N) (s : string) (acc : N) : option N :=
  match s with
  | "" => Some acc
  | String c s' =>
      match radix_val c with
      | Some d => if d <? base then read_radix base s' (acc * base + d) else None
      | None => None
      end
  end.

End Digits.

(** [m * 10^e] as a rational. *)
Definition scale10 (m : Z) (e : Z) : Q :=
  if (0 <=? e)%Z then inject_Z (m * 10 ^ e) else Qmake m (Z.to_pos (10 ^ (- e))).

Module ToNumber.

Import Digits.

Definition is_ws (c : ascii) : bool :=
  let n := N_of_ascii c in
  ((9 <=? n) && (n <=? 13) || (n =? 32))%N.

Fixpoint trim_left (s : string) : string :=
  match s with
  | String c s' => if is_ws c then trim_left s' else s
  | "" => ""
  end.

Fixpoint trim_right (s : string) : string :=
  match s with
  | "" => ""
  | String c s' =>
      let t := trim_right s' in
      if is_ws c && (t =? "") then "" else String c t
  end.

Definition trim (s : string) : string := trim_right (trim_left s).

(** The exponent after [e] or [E]: an optional sign and at least one
    digit, up to the end of the string. *)
Definition parse_exponent (s : string) : option Z :=
  let '(sg, r) :=
    match s with
    | String "+" r => (1, r)
    | String "-" r => (-1, r)
    | _ => (1, s)
    end in
  match read_digits r 0 0 with
  | (v, S _, "") => Some (sg * Z.of_N v)
  | _ => None
  end.

(** An unsigned decimal literal: [Infinity], or digits with an optional
    fraction and an optional exponent, at least one digit before the
    exponent. *)
Definition parse_unsigned (s : string) : option number :=
  if s =? "Infinity" then Some PInf
  else
    let '(i, ni, r1) := read_digits s 0 0 in
    let '(m, nf, r2) :=
      match r1 with
      | String "." r => read_digits r i 0
      | _ => (i, 0%nat, r1)
      end in
    if (ni + nf =? 0)%nat then None
    else
      match r2 with
      | "" => Some (Fin (scale10 (Z.of_N m) (- Z.of_nat nf)))
      | String c r3 =>
          if Ascii.eqb c "e" || Ascii.eqb c "E" then
            match parse_exponent r3 with
            | Some e => Some (Fin (scale10 (Z.of_N m) (e - Z.of_nat nf)))
            | None => None
            end
          else None
      end.

(** A literal in base 16, 8 or 2 after its two-character prefix. *)
Definition parse_radix (base : N) (s : string) : option number :=
  match s with
  | "" => None
  | _ => match read_radix base s 0 with
         | Some v => Some (zn (Z.of_N v))
         | None => None
         end
  end.

Definition radix_of (c : ascii) : option N :=
  if Ascii.eqb c "x" || Ascii.eqb c "X" then Some 16%N
  else if Ascii.eqb c "o" || Ascii.eqb c "O" then Some 8%N
  else if Ascii.eqb c "b" || Ascii.eqb c "B" then Some 2%N
  else None.

Definition parse_literal (t : string) : option number :=
  match t with
  | String "+" r => parse_unsigned r
  | String "-" r => Num.neg <$> parse_unsigned r
  | String "0" (String c r) =>
      match radix_of c with
      | Some base => parse_radix base r
      | None => parse_unsigned t
      end
  | _ => parse_unsigned t
  end.

(** [+s] for a string [s]: white space is trimmed, the empty string is
    zero, and what is not a numeric literal is [NaN]. *)
Definition of_string (s : string) : number :=
  match trim s with
  | "" => Fin 0
  | t => default NaN (parse_literal t)
  end.

(** [+parts[i]]: a missing element is [undefined], which converts to
    [NaN]. *)
Definition of_part (parts : list string) (i : nat) : number :=
  match parts !! i with
  | Some s => of_string s
  | None => NaN
  end.

End ToNumber.

Module ToString.

Import Digits.
Local Open Scope Z_scope.

(** [z] zeros. *)
Definition zeros (z : Z) : string := String.concat "" (replicate (Z.to_nat z) "0").

(** Drops the trailing zeros of [s], counting them into the exponent. *)
Fixpoint strip_zeros (fuel : nat) (s : N) (e : Z) : N * Z :=
  match fuel with
  | O => (s, e)
  | S f =>
      if (s =? 0)%N then (s, e)
      else if (s mod 10 =? 0)%N then strip_zeros f (s / 10)%N (e + 1)
      else (s, e)
  end.

Definition ndigits (n : N) : Z := Z.of_nat (String.length (digits n)).

(** The decimal digits [s] and exponent [e] of a positive rational,
    [q = s * 10^e] with [s] not a multiple of ten: its decimal expansion
    when that is finite, and seventeen significant digits of it
    otherwise (binary64 prints no more). *)
Definition decimal_of (q : Q) : N * Z :=
  let q := Qred q in
  let num := Z.to_N (Qnum q) in
  let den := Npos (Qden q) in
  let K := N.of_nat (Pos.size_nat (Qden q)) in
  let '(s, e) :=
    if (10 ^ K mod den =? 0)%N then ((num * (10 ^ K / den))%N, - Z.of_N K)
    else
      let sh := 17 - (ndigits num - ndigits den) in
      let s1 := Qfloor (q * Qpower 10 sh + (1 # 2)) in
      if 10 ^ 17 <=? s1
      then (Z.to_N (Qfloor (q * Qpower 10 (sh - 1) + (1 # 2))), 1 - sh)
      else (Z.to_N s1, - sh) in
  strip_zeros (N.size_nat s) s e.

Definition signed (e : Z) : string :=
  (if e <? 0 then "-" else "+") ++ digits (Z.to_N (Z.abs e)).

(** Exponent notation: the first digit, the others after a point, and the
    exponent [n - 1] with its sign. *)
Definition exponential (ds : string) (n : Z) : string :=
  match ds with
  | String d "" => String d "" ++ "e" ++ signed (n - 1)
  | String d rest => String d "" ++ "." ++ rest ++ "e" ++ signed (n - 1)
  | "" => ""
  end.

(** The digits [ds] of [s] laid out for the decimal point after the
    [n]-th digit: plain digits while [-6 < n <= 21], exponent notation
    outside. *)
Definition layout (s : N) (e : Z) : string :=
  let ds := digits s in
  let k := Z.of_nat (String.length ds) in
  let n := k + e in
  if (k <=? n) && (n <=? 21) then ds ++ zeros (n - k)
  else if (0 <? n) && (n <=? 21) then
    substring 0 (Z.to_nat n) ds ++ "." ++ substring (Z.to_nat n) (Z.to_nat (k - n)) ds
  else if (-6 <? n) && (n <=? 0) then "0." ++ zeros (- n) ++ ds
  else exponential ds n.

Definition is_integer (q : Q) : bool := Qeq_bool (inject_Z (Qfloor q)) q.

(** The string of a number, as string concatenation, [join] and
    [String(x)] produce it.  An integer below [10^21] is its digits. *)
Definition of_number (x : number) : string :=
  match x with
  | NaN => "NaN"
  | PInf => "Infinity"
  | NInf => "-Infinity"
  | Fin q =>
      if Qeq_bool q 0 then "0"
      else
        let sg := if Qle_bool 0 q then "" else "-" in
        let a := Qabs q in
        if is_integer a && Qle_bool a (inject_Z (10 ^ 21 - 1))
        then sg ++ digits (Z.to_N (Qfloor a))
        else let '(s, e) := decimal_of a in sg ++ layout s e
  end.

(** A non-negative number of hundredths [n] in fixed notation. *)
Definition fixed2 (n : N) : string :=
  digits (n / 100)%N
  ++ "." ++ String (digit_char ((n / 10) mod 10)%N)
              (String (digit_char (n mod 10)%N) "").

(** [x.toFixed(2)]: the nearest multiple of a hundredth, the larger one
    at a tie, with exactly two digits after the point; a negative [x]
    prints as ["-"] and [(-x).toFixed(2)]; from [10^21] on it is
    [String(x)]. *)
Definition toFixed2 (x : number) : string :=
  match x with
  | Fin q =>
      let sg := if Qle_bool 0 q then "" else "-" in
      let a := Qabs q in
      if Qle_bool (inject_Z (10 ^ 21)) a then of_number x
      else
        let n := Z.to_N (Qfloor (a * 100 + (1 # 2))) in
        sg ++ fixed2 n
  | _ => of_number x
  end.

End ToString.

(** ** Exceptions *)

Inductive exn : Type :=
  | TypeError
  | IndexSizeError
  | Error (msg : string).

Inductive result (A : Type) : Type :=
  | Ok (a : A)
  | Throw (e : exn).

Arguments Ok {A} a.
Arguments Throw {A} e.

Global Instance result_ret : MRet result := fun A a => Ok a.
Global Instance result_bind : MBind result := fun A B f m =>
  match m with
  | Ok a => f a
  | Throw e => Throw e
  end.
Global Instance result_fmap : FMap result := fun A B f m =>
  match m with
  | Ok a => Ok (f a)
  | Throw e => Throw e
  end.

(** [o.f] on an object that may be [null]. *)
Definition deref {A} (o : option A) : result A :=
  match o with
  | Some a => Ok a
  | None => Throw TypeError
  end.

(** ** The view and the projection object *)

Module View.
(** [{width:, height:}], the size of the view in pixels. *)
Record t : Type := make { width : Z; height : Z }.
End View.

Inductive ProjKind : Type :=
  | Mollweide
  | AzimuthalEquidistant
  | ConicEquidistant
  | Equirectangular
  | Orthographic
  | Stereographic
  | Waterman
  | Winkel3.

Global Instance ProjKind_eq_dec : EqDecision ProjKind.
Proof. solve_decision. Defined.

Module Projection.

(** The parameters of a [d3] projection that the module reads or sets
    through the accessors of the same names. *)
Record t : Type := make {
  kind : ProjKind;
  rotate : number * number * number;
  scale : number;
  translate : number * number;
  precision : number;
  clipAngle : option number;
  clipExtent : option ((number * number) * (number * number));
}.

(** [p.rotate(a)]: an array of two angles sets the third to zero; a
    missing angle is [undefined], a [NaN] angle. *)
Definition set_rotate (a : list number) (p : t) : t :=
  let r :=
    (default NaN (a !! 0%nat), default NaN (a !! 1%nat),
     if decide (2 < length a)%nat then default NaN (a !! 2%nat) else Fin 0) in
  make (kind p) r (scale p) (translate p) (precision p) (clipAngle p) (clipExtent p).

Definition set_scale (s : number) (p : t) : t :=
  make (kind p) (rotate p) s (translate p) (precision p) (clipAngle p) (clipExtent p).

Definition set_translate (tr : number * number) (p : t) : t :=
  make (kind p) (rotate p) (scale p) tr (precision p) (clipAngle p) (clipExtent p).

Definition set_precision (x : number) (p : t) : t :=
  make (kind p) (rotate p) (scale p) (translate p) x (clipAngle p) (clipExtent p).

Definition set_clipAngle (x : number) (p : t) : t :=
  make (kind p) (rotate p) (scale p) (translate p) (precision p) (Some x) (clipExtent p).

Definition set_clipExtent (e : (number * number) * (number * number)) (p : t) : t :=
  make (kind p) (rotate p) (scale p) (translate p) (precision p) (clipAngle p) (Some e).

(** [p.rotate()] as the array it returns. *)
Definition rotate_array (p : t) : list number :=
  let '(a, b, c) := rotate p in [a; b; c].

End Projection.

(** What [d3] computes: a fresh projection of each kind with the library's
    defaults, the inverse of a projection at a point of the screen ([None]
    where there is none), and the bounds [[[x0, y0], [x1, y1]]] of the
    projected sphere. *)
Class D3 : Type := {
  d3_geo : ProjKind → Projection.t;
  d3_invert : Projection.t → number * number → option (number * number);
  d3_bounds : Projection.t → (number * number) * (number * number);
}.

(** ** Helpers *)

(** Modelled from the spec: [floorMod] of the utility module, which is not
    among the sources; the true mathematical modulo. *)
Definition floorMod (a n : number) : number := (a - n * Num.floor (a / n))%num.

(** Modelled from the spec: [clamp] of the utility module, which is not
    among the sources. *)
Definition clamp (x low high : number) : number := Num.max low (Num.min x high).

(** The rotation of the globe to the position of the user, from the offset
    [tz] of the local time zone in minutes. *)
Definition currentPosition (tz : Z) : list number :=
  let lam := floorMod (zn tz / zn 4)%num (zn 360) in
  [lam; zn 0].

Definition ensureNumber (num fallback : number) : number :=
  if Num.isFinite num || Num.eqb num PInf || Num.eqb num NInf then num else fallback.

Module Rect.
Record t : Type := make {
  x : number; y : number; xMax : number; yMax : number;
  width : number; height : number;
}.
End Rect.

(** The projection bounds clamped to the view. *)
Definition clampedBounds (bounds : (number * number) * (number * number))
    (view : View.t) : Rect.t :=
  let upperLeft := bounds.1 in
  let lowerRight := bounds.2 in
  let vw := zn (View.width view) in
  let vh := zn (View.height view) in
  let x := Num.max (Num.floor (ensureNumber upperLeft.1 (zn 0))) (zn 0) in
  let y := Num.max (Num.floor (ensureNumber upperLeft.2 (zn 0))) (zn 0) in
  let xMax := Num.min (Num.ceil (ensureNumber lowerRight.1 vw)) (vw - zn 1)%num in
  let yMax := Num.min (Num.ceil (ensureNumber lowerRight.2 vh)) (vh - zn 1)%num in
  Rect.make x y xMax yMax (xMax - x + zn 1)%num (yMax - y + zn 1)%num.

(** ** Pixel buffers, canvases and the relief rasters *)

Module ImageData.
(** [width * height] pixels of four bytes (red, green, blue, alpha). *)
Record t : Type := make { width : Z; height : Z; data : list byte }.
End ImageData.

(** What has been drawn on a canvas, oldest first.  [DrawImage] draws
    another canvas, given by its size and what was drawn on it, scaled into
    a rectangle. *)
#[warnings="-register-all"]
Inductive draw_op : Type :=
  | ClearRect (x y w h : Z)
  | PutImageData (img : ImageData.t) (dx dy : Z)
  | DrawImage (src_width src_height : Z) (src : list draw_op)
      (dx dy dw dh : Z) (smoothing : bool).

Module Canvas.
Record t : Type := make {
  width : Z;
  height : Z;
  imageSmoothingEnabled : bool;
  drawn : list draw_op;
}.

Definition draw (op : draw_op) (c : t) : t :=
  make (width c) (height c) (imageSmoothingEnabled c) (drawn c ++ [op]).

Definition set_imageSmoothingEnabled (b : bool) (c : t) : t :=
  make (width c) (height c) b (drawn c).

(** A canvas element as [document.createElement] returns it. *)
Definition fresh : t := make 300 150 true [].

(** Assigning the width and the height resets the canvas. *)
Definition resize (w h : Z) (c : t) : t := make w h true [].
End Canvas.

Module Relief.
(** One resolution of the relief: the image element (its width and
    height), its decoded pixels, and the flag set when both are there. *)
Record t : Type := make {
  img : option (Z * Z);
  data : option (list byte);
  loaded : bool;
}.
End Relief.

(** ** The globe object *)

Module Globe.

(** The state of a globe and the methods a variant may override.  [tz],
    the first argument of [newProjection], is the offset of the local time
    zone in minutes, which [new Date().getTimezoneOffset()] reads. *)
Record t : Type := make {
  reliefHi : Relief.t;
  reliefLo : Relief.t;
  useReliefLo : bool;
  reliefFastScale : number;
  reliefFastCanvas : option Canvas.t;
  reliefCanvas : option Canvas.t;
  reliefCache : gmap string ImageData.t;
  projection : option Projection.t;
  newProjection : Z → View.t → result Projection.t;
  center : View.t → number * number;
  scaleExtent : number * number;
}.

Definition set_reliefFastCanvas (c : option Canvas.t) (g : t) : t :=
  make (reliefHi g) (reliefLo g) (useReliefLo g) (reliefFastScale g)
    c (reliefCanvas g) (reliefCache g)
    (projection g) (newProjection g) (center g) (scaleExtent g).

Definition set_reliefCanvas (c : option Canvas.t) (g : t) : t :=
  make (reliefHi g) (reliefLo g) (useReliefLo g) (reliefFastScale g)
    (reliefFastCanvas g) c (reliefCache g)
    (projection g) (newProjection g) (center g) (scaleExtent g).

Definition set_reliefCache (m : gmap string ImageData.t) (g : t) : t :=
  make (reliefHi g) (reliefLo g) (useReliefLo g) (reliefFastScale g)
    (reliefFastCanvas g) (reliefCanvas g) m
    (projection g) (newProjection g) (center g) (scaleExtent g).

Definition set_projection (p : option Projection.t) (g : t) : t :=
  make (reliefHi g) (reliefLo g) (useReliefLo g) (reliefFastScale g)
    (reliefFastCanvas g) (reliefCanvas g) (reliefCache g)
    p (newProjection g) (center g) (scaleExtent g).

(** The fields a caller assigns: the loaded rasters and the tier flag. *)
Definition set_relief (hi lo : Relief.t) (useLo : bool) (g : t) : t :=
  make hi lo useLo (reliefFastScale g)
    (reliefFastCanvas g) (reliefCanvas g) (reliefCache g)
    (projection g) (newProjection g) (center g) (scaleExtent g).

End Globe.

(** The methods a variant hands to [newGlobe]; [None] keeps the standard
    one.  (The variants' own [defineMap] and [locate] build the SVG scene and
    are not part of this development.) *)
Module Source.
Record t : Type := make {
  newProjection : option (Z → View.t → result Projection.t);
  center : option (View.t → number * number);
}.
End Source.

(** A globe with standard behaviour. *)
Definition standardGlobe : Globe.t :=
  {| Globe.reliefHi := Relief.make None None false;
     Globe.reliefLo := Relief.make None None false;
     Globe.useReliefLo := false;
     Globe.reliefFastScale := Fin (1 # 4);
     Globe.reliefFastCanvas := None;
     Globe.reliefCanvas := None;
     Globe.reliefCache := ∅;
     Globe.projection := None;
     Globe.newProjection := fun _ _ => Throw (Error "method must be overridden");
     Globe.center := fun view =>
       ((zn (View.width view) / zn 2)%num, (zn (View.height view) / zn 2)%num);
     Globe.scaleExtent := (zn 100, zn 10000) |}.

(** [_.extend(standardGlobe(), source)]. *)
Definition extend (g : Globe.t) (source : Source.t) : Globe.t :=
  {| Globe.reliefHi := Globe.reliefHi g;
     Globe.reliefLo := Globe.reliefLo g;
     Globe.useReliefLo := Globe.useReliefLo g;
     Globe.reliefFastScale := Globe.reliefFastScale g;
     Globe.reliefFastCanvas := Globe.reliefFastCanvas g;
     Globe.reliefCanvas := Globe.reliefCanvas g;
     Globe.reliefCache := Globe.reliefCache g;
     Globe.projection := Globe.projection g;
     Globe.newProjection := default (Globe.newProjection g) (Source.newProjection source);
     Globe.center := default (Globe.center g) (Source.center source);
     Globe.scaleExtent := Globe.scaleExtent g |}.

Definition newGlobe (source : Source.t) (tz : Z) (view : View.t) : result Globe.t :=
  let result := extend standardGlobe source in
  p ← Globe.newProjection result tz view;
  mret (Globe.set_projection (Some p) result).

(** ** The projections of the registry *)

Section Globes.

Context `{D3}.

Definition atlantis (tz : Z) (view : View.t) : result Globe.t :=
  newGlobe
    {| Source.newProjection := Some (fun _ _ =>
         Ok (Projection.set_precision (Fin (1 # 10))
               (Projection.set_rotate [zn 30; zn (-45); zn 90] (d3_geo Mollweide))));
       Source.center := None |} tz view.

Definition azimuthalEquidistant (tz : Z) (view : View.t) : result Globe.t :=
  newGlobe
    {| Source.newProjection := Some (fun _ _ =>
         Ok (Projection.set_clipAngle (zn 180 - Fin (1 # 1000))%num
               (Projection.set_rotate [zn 0; zn (-90)]
                  (Projection.set_precision (Fin (1 # 10))
                     (d3_geo AzimuthalEquidistant)))));
       Source.center := None |} tz view.

Definition conicEquidistant (tz : Z) (view : View.t) : result Globe.t :=
  newGlobe
    {| Source.newProjection := Some (fun tz _ =>
         Ok (Projection.set_precision (Fin (1 # 10))
               (Projection.set_rotate (currentPosition tz) (d3_geo ConicEquidistant))));
       Source.center := Some (fun view =>
         ((zn (View.width view) / zn 2)%num,
          (zn (View.height view) / zn 2
           + zn (View.height view) * Fin (65 # 1000))%num)) |} tz view.

Definition equirectangular (tz : Z) (view : View.t) : result Globe.t :=
  newGlobe
    {| Source.newProjection := Some (fun tz _ =>
         Ok (Projection.set_precision (Fin (1 # 10))
               (Projection.set_rotate (currentPosition tz) (d3_geo Equirectangular))));
       Source.center := None |} tz view.

Definition orthographic (tz : Z) (view : View.t) : result Globe.t :=
  newGlobe
    {| Source.newProjection := Some (fun tz _ =>
         Ok (Projection.set_clipAngle (zn 90)
               (Projection.set_precision (Fin (1 # 10))
                  (Projection.set_rotate (currentPosition tz) (d3_geo Orthographic)))));
       Source.center := None |} tz view.

Definition stereographic (tz : Z) (view : View.t) : result Globe.t :=
  newGlobe
    {| Source.newProjection := Some (fun _ view =>
         Ok (Projection.set_clipExtent
               ((zn 0, zn 0), (zn (View.width view), zn (View.height view)))
               (Projection.set_clipAngle (zn 180 - Fin (1 # 10000))%num
                  (Projection.set_precision (Fin 1)
                     (Projection.set_rotate [zn (-43); zn (-20)]
                        (d3_geo Stereographic))))));
       Source.center := None |} tz view.

Definition waterman (tz : Z) (view : View.t) : result Globe.t :=
  newGlobe
    {| Source.newProjection := Some (fun _ _ =>
         Ok (Projection.set_precision (Fin (1 # 10))
               (Projection.set_rotate [zn 20; zn 0] (d3_geo Waterman))));
       Source.center := None |} tz view.

Definition winkel3 (tz : Z) (view : View.t) : result Globe.t :=
  newGlobe
    {| Source.newProjection := Some (fun _ _ =>
         Ok (Projection.set_precision (Fin (1 # 10)) (d3_geo Winkel3)));
       Source.center := None |} tz view.

(** The registry: the constructors by name. *)
Definition registry : list (string * (Z → View.t → result Globe.t)) :=
  [ ("atlantis", atlantis);
    ("azimuthal_equidistant", azimuthalEquidistant);
    ("conic_equidistant", conicEquidistant);
    ("equirectangular", equirectangular);
    ("orthographic", orthographic);
    ("stereographic", stereographic);
    ("waterman", waterman);
    ("winkel3", winkel3) ].

Definition globes : gmap string (Z → View.t → result Globe.t) :=
  list_to_map registry.

End Globes.

(** ** Methods of the standard globe *)

Section Methods.

Context `{D3}.

(** The bounds of the current projection clamped to the view. *)
Definition bounds (view : View.t) (g : Globe.t) : result Rect.t :=
  p ← deref (Globe.projection g);
  mret (clampedBounds (d3_bounds p) view).

(** The projection scale at which the entire globe fits within the view. *)
Definition fit (tz : Z) (view : View.t) (g : Globe.t) : result number :=
  defaultProjection ← Globe.newProjection g tz view;
  let bounds := d3_bounds defaultProjection in
  let hScale := ((bounds.2.1 - bounds.1.1) / Projection.scale defaultProjection)%num in
  let vScale := ((bounds.2.2 - bounds.1.2) / Projection.scale defaultProjection)%num in
  mret (Num.min (zn (View.width view) / hScale) (zn (View.height view) / vScale)
        * Fin (9 # 10))%num.

(** [orientation()] without an orientation string: the current
    orientation as a string. *)
Definition orientation_get (g : Globe.t) : result string :=
  projection ← deref (Globe.projection g);
  let rotate := Projection.rotate projection in
  mret (join ","
          [ ToString.toFixed2 (- rotate.1.1)%num;
            ToString.toFixed2 (- rotate.1.2)%num;
            ToString.of_number (Num.round (Projection.scale projection)) ]).

(** [orientation(o, view)] with an orientation string: mutates the globe
    to match it. *)
Definition orientation_set (o : string) (tz : Z) (view : View.t) (g : Globe.t)
    : result Globe.t :=
  projection ← deref (Globe.projection g);
  let rotate := Projection.rotate projection in
  let parts := split "," o in
  let lam := ToNumber.of_part parts 0 in
  let phi := ToNumber.of_part parts 1 in
  let scale := ToNumber.of_part parts 2 in
  let extent := Globe.scaleExtent g in
  r ← (if Num.isFinite lam && Num.isFinite phi
       then Ok [(- lam)%num; (- phi)%num; rotate.2]
       else Projection.rotate_array <$> Globe.newProjection g tz view);
  let projection := Projection.set_rotate r projection in
  s ← (if Num.isFinite scale
       then Ok (clamp scale extent.1 extent.2)
       else fit tz view g);
  let projection := Projection.set_scale s projection in
  let projection := Projection.set_translate (Globe.center g view) projection in
  mret (Globe.set_projection (Some projection) g).

(** [orientation(o, view)]: the getter when [o] is [null] or [undefined],
    the setter, which returns the globe, otherwise. *)
Definition orientation (o : option string) (tz : Z) (view : View.t) (g : Globe.t)
    : result (string + Globe.t) :=
  match o with
  | Some o => inr <$> orientation_set o tz view g
  | None => inl <$> orientation_get g
  end.

End Methods.

(** ** Drag and zoom sessions *)

Module Manipulator.

(** What the closure of a session holds. *)
Record t : Type := make {
  startMouse : number * number;
  sensitivity : number;
  rotation : number * number;
  original : number;
}.

(** [move(mouse, scale)] on the projection of the session. *)
Definition move (m : t) (mouse : option (number * number)) (scale : number)
    (projection : Projection.t) : Projection.t :=
  let projection :=
    match mouse with
    | Some mouse =>
        let xd := (mouse.1 - (startMouse m).1 + (rotation m).1)%num in
        let yd := (mouse.2 - (startMouse m).2 + (rotation m).2)%num in
        Projection.set_rotate
          [ (xd * sensitivity m)%num;
            (- yd * sensitivity m)%num;
            (Projection.rotate projection).2 ]
          projection
    | None => projection
    end in
  Projection.set_scale scale projection.

(** [end()]. *)
Definition end_ (m : t) (projection : Projection.t) : Projection.t :=
  Projection.set_precision (original m) projection.

End Manipulator.

(** [manipulator(startMouse, startScale)]: the session, and the projection
    with its precision raised. *)
Definition manipulator (startMouse : number * number) (startScale : number)
    (g : Globe.t) : result (Manipulator.t * Globe.t) :=
  projection ← deref (Globe.projection g);
  let sensitivity := (zn 60 / startScale)%num in
  let rotation :=
    (((Projection.rotate projection).1.1 / sensitivity)%num,
     (- (Projection.rotate projection).1.2 / sensitivity)%num) in
  let original := Projection.precision projection in
  let projection := Projection.set_precision (original * zn 10)%num projection in
  mret (Manipulator.make startMouse sensitivity rotation original,
        Globe.set_projection (Some projection) g).

(** ** The relief overlay *)

Local Open Scope Z_scope.

(** [for (...) body] over the values of [l], stopping at an exception. *)
Fixpoint for_each {A S : Type} (l : list A) (body : A → S → result S) (s : S)
    : result S :=
  match l with
  | [] => Ok s
  | a :: l' => s' ← body a s; for_each l' body s'
  end.

Module Uint8Clamped.

(** [d[i]] as a number; [undefined], so [NaN] in arithmetic and in a
    store, when [i] is not an index of [d]. *)
Definition get (d : list byte) (i : number) : number :=
  match i with
  | Fin q =>
      if ToString.is_integer q && (0 <=? Qfloor q)
      then match d !! Z.to_nat (Qfloor q) with
           | Some b => zn (Z.of_N (Byte.to_N b))
           | None => NaN
           end
      else NaN
  | _ => NaN
  end.

(** The byte a number is stored as: clamped to [0..255], rounded to the
    nearest integer, to the even one at a tie; [NaN] is zero. *)
Definition clamp_byte (v : number) : byte :=
  let z :=
    match v with
    | NaN | NInf => 0
    | PInf => 255
    | Fin q => Z.max 0 (Z.min 255 (Num.nearest_even q))
    end in
  default x00%byte (Byte.of_N (Z.to_N z)).

(** [d[i] = v]; nothing is stored outside the array. *)
Definition set (d : list byte) (i : Z) (v : number) : list byte :=
  if i <? 0 then d else <[Z.to_nat i := clamp_byte v]> d.

End Uint8Clamped.

(** [ctx.createImageData(w, h)]: transparent black. *)
Definition createImageData (w h : Z) : result ImageData.t :=
  if (w =? 0) || (h =? 0) then Throw IndexSizeError
  else Ok (ImageData.make (Z.abs w) (Z.abs h)
             (replicate (Z.to_nat (4 * Z.abs w * Z.abs h)) x00%byte)).

(** The value a canvas keeps when a number that is not negative, as the
    sizes of a view are, is assigned to its width or height. *)
Definition canvas_size (x : number) : Z :=
  match x with
  | Fin q => Z.max 0 (Qfloor q)
  | _ => 0
  end.

(** Initializes the relief canvas and the fast canvas for the view.  The
    canvas found in the document or created is reset by the assignment of
    its size. *)
Definition initReliefCanvas (view : View.t) (g : Globe.t) : Globe.t :=
  let reliefCanvas := default Canvas.fresh (Globe.reliefCanvas g) in
  let reliefCanvas :=
    Canvas.resize (View.width view) (View.height view) reliefCanvas in
  let reliefFastCanvas := default Canvas.fresh (Globe.reliefFastCanvas g) in
  let reliefFastCanvas :=
    Canvas.resize
      (canvas_size (Num.round (zn (View.width view) * Globe.reliefFastScale g)%num))
      (canvas_size (Num.round (zn (View.height view) * Globe.reliefFastScale g)%num))
      reliefFastCanvas in
  Globe.set_reliefFastCanvas (Some reliefFastCanvas)
    (Globe.set_reliefCanvas (Some reliefCanvas) g).

(** The literal [0.7], which binary64 does not hold exactly. *)
Definition alpha_factor : number := Num.binary64 (7 # 10).

Section ReliefRenderer.

Context `{D3}.

(** The relief cache key. *)
Definition getReliefCacheKey (projection : Projection.t) (view : View.t) : string :=
  let rot := Projection.rotate_array projection in
  let scl := Projection.scale projection in
  let tr := [(Projection.translate projection).1; (Projection.translate projection).2] in
  join "," (ToString.of_number <$> rot) ++ ":" ++ ToString.of_number scl ++ ":"
    ++ join "," (ToString.of_number <$> tr) ++ ":"
    ++ ToString.of_number (zn (View.width view)) ++ ":"
    ++ ToString.of_number (zn (View.height view)).

(** The body of the pixel loops, from the inverse projection of the point
    [pt] of the screen to the four stores at [oidx] of the output.  The
    product of the source alpha and [0.7] is rounded to binary64 before
    [Math.round]: the byte stored depends on it ([45 * 0.7] is
    [31.499999999999996], stored as 31). *)
Definition reliefPixel (relief : Relief.t) (data : list byte)
    (projection : Projection.t) (pt : number * number) (oidx : Z)
    (out : list byte) : result (list byte) :=
  match d3_invert projection pt with
  | None => Ok out
  | Some (lon, lat) =>
      img ← deref (Relief.img relief);
      let iw := zn img.1 in
      let ih := zn img.2 in
      let ix := Num.round ((lon + zn 180) / zn 360 * (iw - zn 1))%num in
      let iy := Num.round ((zn 90 - lat) / zn 180 * (ih - zn 1))%num in
      if (ix <? zn 0)%num || (ix >=? iw)%num || (iy <? zn 0)%num || (iy >=? ih)%num
      then Ok out
      else
        let idx := ((iy * iw + ix) * zn 4)%num in
        let out := Uint8Clamped.set out oidx (Uint8Clamped.get data idx) in
        let out := Uint8Clamped.set out (oidx + 1)
                     (Uint8Clamped.get data (idx + zn 1)%num) in
        let out := Uint8Clamped.set out (oidx + 2)
                     (Uint8Clamped.get data (idx + zn 2)%num) in
        let out := Uint8Clamped.set out (oidx + 3)
                     (Num.round
                        (Num.mul64 (Uint8Clamped.get data (idx + zn 3)%num) alpha_factor)) in
        Ok out
  end.

(** The two nested loops over an output of [w] by [h] pixels, the pixel
    [(x, y)] standing for the point [at x y] of the screen. *)
Definition sweep (relief : Relief.t) (data : list byte) (projection : Projection.t)
    (w h : Z) (at_ : Z → Z → number * number) (out : list byte) : result (list byte) :=
  for_each (seqZ 0 h) (fun y =>
    for_each (seqZ 0 w) (fun x =>
      reliefPixel relief data projection (at_ x y) ((y * w + x) * 4))) out.

(** An output image of [w] by [h] pixels: created transparent, then filled
    by the loops. *)
Definition composite (relief : Relief.t) (data : list byte) (projection : Projection.t)
    (w h : Z) (at_ : Z → Z → number * number) : result ImageData.t :=
  outImg ← createImageData w h;
  out ← sweep relief data projection w h at_ (ImageData.data outImg);
  mret (ImageData.make (ImageData.width outImg) (ImageData.height outImg) out).

(** The point of the screen of a pixel of the full-size output. *)
Definition at_full (x y : Z) : number * number := (zn x, zn y).

(** The point of the screen of a pixel of the downsampled output. *)
Definition at_fast (fastW fastH : Z) (view : View.t) (x y : Z) : number * number :=
  ((zn x / zn fastW * zn (View.width view))%num,
   (zn y / zn fastH * zn (View.height view))%num).

(** [cached && cached.width === view.width && cached.height === view.height]. *)
Definition cache_hit (cached : option ImageData.t) (view : View.t) : option ImageData.t :=
  match cached with
  | Some img =>
      if (ImageData.width img =? View.width view)
         && (ImageData.height img =? View.height view)
      then Some img else None
  | None => None
  end.

(** The relief draw method.  Returns the globe as the call leaves it, also
    when it throws. *)
Definition drawRelief (view : View.t) (projection : Projection.t) (g : Globe.t)
    : Globe.t * result unit :=
  let relief := if Globe.useReliefLo g then Globe.reliefLo g else Globe.reliefHi g in
  match Relief.loaded relief, Relief.data relief with
  | true, Some data =>
      match Globe.reliefCanvas g with
      | None => (g, Throw TypeError)
      | Some ctx =>
          let vw := View.width view in
          let vh := View.height view in
          let ctx := Canvas.draw (ClearRect 0 0 vw vh) ctx in
          let g := Globe.set_reliefCanvas (Some ctx) g in
          let cacheKey := getReliefCacheKey projection view in
          match (if Globe.useReliefLo g then None
                 else cache_hit (Globe.reliefCache g !! cacheKey) view) with
          | Some cached =>
              (Globe.set_reliefCanvas (Some (Canvas.draw (PutImageData cached 0 0) ctx)) g,
               Ok ())
          | None =>
              if Globe.useReliefLo g then
                match Globe.reliefFastCanvas g with
                | None => (g, Throw TypeError)
                | Some fast =>
                    let fastW := Canvas.width fast in
                    let fastH := Canvas.height fast in
                    match composite relief data projection fastW fastH
                              (at_fast fastW fastH view) with
                    | Throw e => (g, Throw e)
                    | Ok outImg =>
                        let fast := Canvas.draw (PutImageData outImg 0 0) fast in
                        let ctx := Canvas.set_imageSmoothingEnabled false ctx in
                        let ctx :=
                          Canvas.draw
                            (DrawImage (Canvas.width fast) (Canvas.height fast)
                               (Canvas.drawn fast) 0 0 vw vh
                               (Canvas.imageSmoothingEnabled ctx)) ctx in
                        (Globe.set_reliefCanvas (Some ctx)
                           (Globe.set_reliefFastCanvas (Some fast) g),
                         Ok ())
                    end
                end
              else
                match composite relief data projection vw vh at_full with
                | Throw e => (g, Throw e)
                | Ok outImg =>
                    let ctx := Canvas.draw (PutImageData outImg 0 0) ctx in
                    (Globe.set_reliefCache (<[cacheKey := outImg]> (Globe.reliefCache g))
                       (Globe.set_reliefCanvas (Some ctx) g),
                     Ok ())
                end
          end
      end
  | _, _ => (g, Ok ())
  end.

Definition clearReliefCache (g : Globe.t) : Globe.t :=
  Globe.set_reliefCache ∅ g.

End ReliefRenderer.

(** ** A projection library to run the model on

    A plain chart stands in for [d3] where a closed example needs one: one
    degree per unit of scale over 150, the sphere six by three units of
    scale. *)
Definition chart_d3 : D3 :=
  {| d3_geo := fun k =>
       Projection.make k (zn 0, zn 0, zn 0) (zn 150) (zn 480, zn 250) (Fin (1 # 2)) None None;
     d3_invert := fun p pt =>
       let k := (zn 150 / Projection.scale p)%num in
       let lon := ((pt.1 - (Projection.translate p).1) * k - (Projection.rotate p).1.1)%num in
       let lat := (((Projection.translate p).2 - pt.2) * k - (Projection.rotate p).1.2)%num in
       if (zn (-180) <=? lon)%num && (lon <=? zn 180)%num
          && (zn (-90) <=? lat)%num && (lat <=? zn 90)%num
       then Some (lon, lat) else None;
     d3_bounds := fun p =>
       let s := Projection.scale p in
       let t := Projection.translate p in
       (((t.1 - zn 3 * s)%num, (t.2 - Fin (3 # 2) * s)%num),
        ((t.1 + zn 3 * s)%num, (t.2 + Fin (3 # 2) * s)%num)) |}.

(** The equirectangular globe of the registry on the chart, for a view of
    800 by 400 and the time zone of Greenwich. *)
Definition chart_view : View.t := View.make 800 400.

Definition chart_globe : Globe.t :=
  match @equirectangular chart_d3 0 chart_view with
  | Ok g => g
  | Throw _ => standardGlobe
  end.

(** A relief of two by two pixels: an opaque one, a half transparent one, a
    nearly transparent one and a transparent one. *)
Definition chart_relief : Relief.t :=
  Relief.make (Some (2, 2))
    (Some [ x01; x02; x03; xff;  x11; x12; x13; x80;
            x21; x22; x23; x05;  x31; x32; x33; x00 ]%byte)
    true.

(** The chart globe with both tiers of the relief loaded and its canvases
    initialized for a view of four by two pixels. *)
Definition relief_view : View.t := View.make 4 2.

Definition relief_globe (useLo : bool) : Globe.t :=
  initReliefCanvas relief_view (Globe.set_relief chart_relief chart_relief useLo chart_globe).

(** A projection of the chart that shows the whole sphere in the view of
    four by two pixels, at the scale [s] times 150. *)
Definition relief_projection (s : Z) : Projection.t :=
  Projection.set_translate (zn 2, zn 1)
    (Projection.set_scale (zn 150 * zn s)%num (@d3_geo chart_d3 Equirectangular)).

(** ** Sequences of renders *)

Section Renders.

Context `{D3}.

(** The globe after the render calls of [calls], first to last; a call that
    throws leaves the globe as it is at the throw. *)
Definition renders (calls : list (View.t * Projection.t)) (g : Globe.t) : Globe.t :=
  foldl (fun g call => (drawRelief call.1 call.2 g).1) g calls.

End Renders.

(** ** Pixels of the composite *)

(** The four bytes of the pixel number [n] of a buffer. *)
Definition pixel_at (d : list byte) (n : Z) : option (byte * byte * byte * byte) :=
  if n <? 0 then None
  else
    r ← d !! Z.to_nat (4 * n);
    g ← d !! Z.to_nat (4 * n + 1);
    b ← d !! Z.to_nat (4 * n + 2);
    a ← d !! Z.to_nat (4 * n + 3);
    Some (r, g, b, a).

(** The column and the row of the raster that the loops look up for a
    longitude and a latitude. *)
Definition raster_column (iw : Z) (lon : number) : number :=
  Num.round ((lon + zn 180) / zn 360 * (zn iw - zn 1))%num.

Definition raster_row (ih : Z) (lat : number) : number :=
  Num.round ((zn 90 - lat) / zn 180 * (zn ih - zn 1))%num.

Definition byte_number (b : byte) : number := zn (Z.of_N (Byte.to_N b)).

(** The alpha byte stored for a source alpha: [Math.round(a * 0.7)]. *)
Definition attenuate (a : byte) : byte :=
  Uint8Clamped.clamp_byte (Num.round (Num.mul64 (byte_number a) alpha_factor)).

(** The value of a primitive binary64 float of the kernel, the float of a
    byte and [0.7] as the division of 7 by 10 rounds it: what [Num.binary64]
    is compared with. *)
Definition of_float (f : PrimFloat.float) : number :=
  match FloatOps.Prim2SF f with
  | SpecFloat.S754_zero _ => Fin 0
  | SpecFloat.S754_infinity s => if s then NInf else PInf
  | SpecFloat.S754_nan => NaN
  | SpecFloat.S754_finite s m e =>
      Fin (Qred ((if s then -1 else 1) * inject_Z (Zpos m) * Qpower 2 e))
  end.

Definition to_float (b : byte) : PrimFloat.float :=
  PrimFloat.of_uint63 (Uint63.of_Z (Z.of_N (Byte.to_N b))).

Definition seven_tenths : PrimFloat.float :=
  PrimFloat.div (PrimFloat.of_uint63 (Uint63.of_Z 7)) (PrimFloat.of_uint63 (Uint63.of_Z 10)).

Section Attenuated.

Context `{D3}.

(** Every pixel [(x, y)] of the output [out], of [w] by [h] pixels, whose
    point of the screen has an inverse projection and whose lookup falls on
    a pixel of the raster, has the red, green and blue of that pixel and its
    alpha attenuated. *)
Definition attenuated (relief : Relief.t) (data : list byte) (projection : Projection.t)
    (w h : Z) (at_ : Z → Z → number * number) (out : list byte) : Prop :=
  ∀ (x y iw ih i j : Z) (lon lat : number) (r g b a : byte),
    0 ≤ x < w → 0 ≤ y < h →
    d3_invert projection (at_ x y) = Some (lon, lat) →
    Relief.img relief = Some (iw, ih) →
    raster_column iw lon = zn i → 0 ≤ i < iw →
    raster_row ih lat = zn j → 0 ≤ j < ih →
    pixel_at data (j * iw + i) = Some (r, g, b, a) →
    pixel_at out (y * w + x) = Some (r, g, b, attenuate a).

End Attenuated.

(** The four stores of a pixel at the index [o] of the output. *)
Definition stored (out : list byte) (o : nat) (r g b a : byte) : list byte :=
  <[(o + 3)%nat := a]> (<[(o + 2)%nat := b]> (<[(o + 1)%nat := g]> (<[o := r]> out))).

(** ** Predicates on strings *)



(** ** Predicates on numbers *)

(** A number that is the integer [z]. *)
Definition is_int (n : number) (z : Z) : Prop :=
  match n with
  | Fin q => (q == inject_Z z)%Q
  | _ => False
  end.


(** ** Default rotations *)

Section DefaultRotation.

Context `{D3}.

(** The default rotation of a variant: the rotation of the projection that
    the [newProjection] of its globe returns. *)
Definition defaultRotation (ctor : Z → View.t → result Globe.t) (tz : Z) (view : View.t)
    : result (number * number * number) :=
  g ← ctor tz view;
  p ← Globe.newProjection g tz view;
  mret (Projection.rotate p).

(** The rotation of a projection once [currentPosition()] is set on it. *)
Definition timezoneRotation (tz : Z) : number * number * number :=
  (floorMod (zn tz / zn 4)%num (zn 360), zn 0, Fin 0).

(** A variant derives its default rotation from the time zone. *)
Definition derives_from_timezone (ctor : Z → View.t → result Globe.t) : Prop :=
  ∀ tz view, defaultRotation ctor tz view = Ok (timezoneRotation tz).

(** Exactly [n] constructors of the registry derive their default rotation
    from the time zone. *)
Definition exactly_derive (n : nat) : Prop :=
  ∃ names : list string,
    NoDup names ∧ length names = n
    ∧ ∀ name, name ∈ names
        ↔ ∃ ctor, globes !! name = Some ctor ∧ derives_from_timezone ctor.

End DefaultRotation.

(** The variants whose [newProjection] calls [currentPosition]. *)
Definition timezone_variants : list string :=
  ["conic_equidistant"; "equirectangular"; "orthographic"].

(** ** States reached by orientation *)

Section Oriented.

Context `{D3}.

(** One call of [orientation(o, view)] takes the globe [g] to [g']. *)
Definition orients (g g' : Globe.t) : Prop :=
  ∃ (o : string) (tz : Z) (view : View.t), orientation_set o tz view g = Ok g'.

(** [g'] is reached from [g] by calls of [orientation(o, view)]. *)
Definition oriented : Globe.t → Globe.t → Prop := rtc orients.

End Oriented.

(** A number of hundredths as [toFixed(2)] prints it. *)
Definition hundredths_string (z : Z) : string :=
  (if (0 <=? z)%Z then "" else "-")%string ++ ToString.fixed2 (Z.to_N (Z.abs z)).

(** ** Loading the relief images *)

(** The two resolutions of the relief. *)
Inductive tier : Type := Hi | Lo.

Global Instance tier_eq_dec : EqDecision tier.
Proof. solve_decision. Defined.

Definition tier_of (t : tier) (g : Globe.t) : Relief.t :=
  match t with Hi => Globe.reliefHi g | Lo => Globe.reliefLo g end.

Definition set_tier (t : tier) (r : Relief.t) (g : Globe.t) : Globe.t :=
  match t with
  | Hi => Globe.set_relief r (Globe.reliefLo g) (Globe.useReliefLo g) g
  | Lo => Globe.set_relief (Globe.reliefHi g) r (Globe.useReliefLo g) g
  end.

Definition src (t : tier) : string :=
  match t with Hi => "relief.jpg" | Lo => "relief-low.jpg" end.

Module Loader.
(** What the closure of one call of [loadReliefImages] holds: the counter,
    whether a callback was passed, and the number of times the callback
    has been called. *)
Record t : Type := make { loadedCount : Z; callback : bool; called : nat }.
End Loader.

Definition checkDone (l : Loader.t) : Loader.t :=
  let loadedCount := Loader.loadedCount l + 1 in
  Loader.make loadedCount (Loader.callback l)
    (if (loadedCount =? 2) && Loader.callback l then S (Loader.called l)
     else Loader.called l).

(** One of the two branches of [loadReliefImages]: a tier that is not loaded
    gets a new image element, of no size yet, and its request is started;
    a loaded one counts as done. *)
Definition request (t : tier) (s : Globe.t * Loader.t * list (tier * string))
    : Globe.t * Loader.t * list (tier * string) :=
  let '(g, l, started) := s in
  let relief := tier_of t g in
  if negb (Relief.loaded relief)
  then (set_tier t (Relief.make (Some (0, 0)) (Relief.data relief) (Relief.loaded relief)) g,
        l, (started ++ [(t, src t)])%list)
  else (g, checkDone l, started).

(** The relief image loader: the globe, the closure of the call and the
    requests it has started. *)
Definition loadReliefImages (callback : bool) (g : Globe.t)
    : Globe.t * Loader.t * list (tier * string) :=
  request Lo (request Hi (g, Loader.make 0 callback 0, [])).

Module Load.
(** The load event of the image of a tier: the size of the image and the
    pixels that a canvas of that size reads back once the image is drawn
    on it. *)
Record t : Type := make { of_tier : tier; width : Z; height : Z; pixels : list byte }.
End Load.

(** The [onload] handler of a tier.  [getImageData] throws for an image of
    no width or no height, before the tier is marked as loaded. *)
Definition onload (e : Load.t) (s : Globe.t * Loader.t) : Globe.t * Loader.t * result unit :=
  let '(g, l) := s in
  let t := Load.of_tier e in
  let relief := tier_of t g in
  let img := Some (Load.width e, Load.height e) in
  if (Load.width e =? 0) || (Load.height e =? 0)
  then (set_tier t (Relief.make img (Relief.data relief) (Relief.loaded relief)) g, l,
        Throw IndexSizeError)
  else (set_tier t (Relief.make img (Some (Load.pixels e)) true) g, checkDone l, Ok ()).

(** The load events in the order in which they arrive; a handler that
    throws does not stop the later ones. *)
Definition loads (events : list Load.t) (s : Globe.t * Loader.t) : Globe.t * Loader.t :=
  foldl (fun s e => (onload e s).1) s events.

(** The tiers that are not loaded, the high one first. *)
Definition unloaded (g : Globe.t) : list tier :=
  ((if Relief.loaded (Globe.reliefHi g) then [] else [Hi])
   ++ (if Relief.loaded (Globe.reliefLo g) then [] else [Lo]))%list.

(** ** The SVG elements of the map *)

Module Svg.

(** What a path is bound to: the sphere, the graticule of [d3], or a
    graticule with the steps given. *)
Inductive datum : Type :=
  | Sphere
  | Graticule
  | GraticuleSteps (minorStep majorStep : number * number).

(** The value of an attribute: a string, or the path that [d3] draws of
    the datum of the element at the time, for a projection. *)
Inductive value : Type :=
  | Text (s : string)
  | Path (projection : option Projection.t) (d : option datum).

(** An element: its name, its attributes in the order in which they were
    set, its datum and its children in the order in which they were
    appended. *)
#[warnings="-register-all"]
Inductive element : Type :=
  | Element (tag : string) (attrs : list (string * value)) (data : option datum)
      (children : list element).

Definition tag (e : element) : string := let 'Element t _ _ _ := e in t.
Definition attrs (e : element) : list (string * value) := let 'Element _ a _ _ := e in a.
Definition data (e : element) : option datum := let 'Element _ _ d _ := e in d.
Definition children (e : element) : list element := let 'Element _ _ _ c := e in c.

(** A new element, as [append(name)] creates it. *)
Definition create (name : string) : element := Element name [] None [].

(** [e.attr(name, value)] for a string. *)
Definition attr (name value : string) (e : element) : element :=
  Element (tag e) (attrs e ++ [(name, Text value)]) (data e) (children e).

(** [e.attr(name, path)] for the path generator of a projection. *)
Definition attr_path (name : string) (projection : option Projection.t) (e : element)
    : element :=
  Element (tag e) (attrs e ++ [(name, Path projection (data e))]) (data e) (children e).

(** [e.datum(d)]. *)
Definition datum_ (d : datum) (e : element) : element :=
  Element (tag e) (attrs e) (Some d) (children e).

(** The element [parent] once [child] is appended to it. *)
Definition append (child parent : element) : element :=
  Element (tag parent) (attrs parent) (data parent) (children parent ++ [child]).

(** The element has the class [c]. *)
Definition has_class (c : string) (e : element) : bool :=
  existsb (fun a : string * value =>
             String.eqb a.1 "class"
             && match a.2 with Text s => String.eqb s c | Path _ _ => false end)
    (attrs e).

(** The elements of a list that have the class [c]. *)
Definition of_class (c : string) (l : list element) : list element :=
  List.filter (has_class c) l.

End Svg.

(** ** Drawing the map and locating a point *)

(** The standard [defineMap]: appends the elements of the map to the two
    containers and, when given a view, initializes the relief canvas. *)
Definition defineMap (mapSvg foregroundSvg : Svg.element) (view : option View.t)
    (g : Globe.t) : Svg.element * Svg.element * Globe.t :=
  let path := Globe.projection g in
  let defs := Svg.create "defs" in
  let defs :=
    Svg.append
      (Svg.attr_path "d" path
         (Svg.datum_ Svg.Sphere (Svg.attr "id" "sphere" (Svg.create "path")))) defs in
  let mapSvg := Svg.append defs mapSvg in
  let mapSvg :=
    Svg.append
      (Svg.attr "class" "background-sphere"
         (Svg.attr "xlink:href" "#sphere" (Svg.create "use"))) mapSvg in
  let mapSvg :=
    Svg.append
      (Svg.attr_path "d" path
         (Svg.datum_ Svg.Graticule (Svg.attr "class" "graticule" (Svg.create "path"))))
      mapSvg in
  let mapSvg :=
    Svg.append
      (Svg.attr_path "d" path
         (Svg.datum_ (Svg.GraticuleSteps (zn 0, zn 90) (zn 0, zn 90))
            (Svg.attr "class" "hemisphere" (Svg.create "path"))))
      mapSvg in
  let mapSvg := Svg.append (Svg.attr "class" "coastline" (Svg.create "path")) mapSvg in
  let mapSvg := Svg.append (Svg.attr "class" "lakes" (Svg.create "path")) mapSvg in
  let foregroundSvg :=
    Svg.append
      (Svg.attr "class" "foreground-sphere"
         (Svg.attr "xlink:href" "#sphere" (Svg.create "use"))) foregroundSvg in
  (mapSvg, foregroundSvg,
   match view with
   | Some view => initReliefCanvas view g
   | None => g
   end).

(** The [defineMap] of the orthographic globe, which takes no view. *)
Definition orthographic_defineMap (mapSvg foregroundSvg : Svg.element) (g : Globe.t)
    : Svg.element * Svg.element * Globe.t :=
  let path := Globe.projection g in
  let defs := Svg.create "defs" in
  let gradientFill :=
    Svg.attr "r" "50%"
      (Svg.attr "cy" "49%"
         (Svg.attr "cx" "50%"
            (Svg.attr "gradientUnits" "objectBoundingBox"
               (Svg.attr "id" "orthographic-fill" (Svg.create "radialGradient"))))) in
  let gradientFill :=
    Svg.append
      (Svg.attr "offset" "69%" (Svg.attr "stop-color" "#303030" (Svg.create "stop")))
      gradientFill in
  let gradientFill :=
    Svg.append
      (Svg.attr "offset" "91%" (Svg.attr "stop-color" "#202020" (Svg.create "stop")))
      gradientFill in
  let gradientFill :=
    Svg.append
      (Svg.attr "offset" "96%" (Svg.attr "stop-color" "#000005" (Svg.create "stop")))
      gradientFill in
  let defs := Svg.append gradientFill defs in
  let defs :=
    Svg.append
      (Svg.attr_path "d" path
         (Svg.datum_ Svg.Sphere (Svg.attr "id" "sphere" (Svg.create "path")))) defs in
  let mapSvg := Svg.append defs mapSvg in
  let mapSvg :=
    Svg.append
      (Svg.attr "fill" "url(#orthographic-fill)"
         (Svg.attr "xlink:href" "#sphere" (Svg.create "use"))) mapSvg in
  let mapSvg :=
    Svg.append
      (Svg.attr_path "d" path
         (Svg.datum_ Svg.Graticule (Svg.attr "class" "graticule" (Svg.create "path"))))
      mapSvg in
  let mapSvg :=
    Svg.append
      (Svg.attr_path "d" path
         (Svg.datum_ (Svg.GraticuleSteps (zn 0, zn 90) (zn 0, zn 90))
            (Svg.attr "class" "hemisphere" (Svg.create "path"))))
      mapSvg in
  let mapSvg := Svg.append (Svg.attr "class" "coastline" (Svg.create "path")) mapSvg in
  let mapSvg := Svg.append (Svg.attr "class" "lakes" (Svg.create "path")) mapSvg in
  let foregroundSvg :=
    Svg.append
      (Svg.attr "class" "foreground-sphere"
         (Svg.attr "xlink:href" "#sphere" (Svg.create "use"))) foregroundSvg in
  (mapSvg, foregroundSvg, g).

(** The [defineMap] of the waterman globe, which takes no view. *)
Definition waterman_defineMap (mapSvg foregroundSvg : Svg.element) (g : Globe.t)
    : Svg.element * Svg.element * Globe.t :=
  let path := Globe.projection g in
  let defs := Svg.create "defs" in
  let defs :=
    Svg.append
      (Svg.attr_path "d" path
         (Svg.datum_ Svg.Sphere (Svg.attr "id" "sphere" (Svg.create "path")))) defs in
  let defs :=
    Svg.append
      (Svg.append (Svg.attr "xlink:href" "#sphere" (Svg.create "use"))
         (Svg.attr "id" "clip" (Svg.create "clipPath"))) defs in
  let mapSvg := Svg.append defs mapSvg in
  let mapSvg :=
    Svg.append
      (Svg.attr "class" "background-sphere"
         (Svg.attr "xlink:href" "#sphere" (Svg.create "use"))) mapSvg in
  let mapSvg :=
    Svg.append
      (Svg.attr_path "d" path
         (Svg.datum_ Svg.Graticule
            (Svg.attr "clip-path" "url(#clip)"
               (Svg.attr "class" "graticule" (Svg.create "path")))))
      mapSvg in
  let mapSvg :=
    Svg.append
      (Svg.attr "clip-path" "url(#clip)" (Svg.attr "class" "coastline" (Svg.create "path")))
      mapSvg in
  let mapSvg :=
    Svg.append
      (Svg.attr "clip-path" "url(#clip)" (Svg.attr "class" "lakes" (Svg.create "path")))
      mapSvg in
  let foregroundSvg :=
    Svg.append
      (Svg.attr "class" "foreground-sphere"
         (Svg.attr "xlink:href" "#sphere" (Svg.create "use"))) foregroundSvg in
  (mapSvg, foregroundSvg, g).

(** The [defineMap] that the globe of a name of the registry has: its own
    for the two variants that override it, the standard one otherwise. *)
Definition defineMap_of (name : string) (mapSvg foregroundSvg : Svg.element)
    (view : option View.t) (g : Globe.t) : Svg.element * Svg.element * Globe.t :=
  if String.eqb name "orthographic" then orthographic_defineMap mapSvg foregroundSvg g
  else if String.eqb name "waterman" then waterman_defineMap mapSvg foregroundSvg g
  else defineMap mapSvg foregroundSvg view g.

(** The standard [locate]: no transform. *)
Definition locate (coord : number * number) (g : Globe.t) : result (option (list number)) :=
  Ok None.

(** The [locate] of the orthographic globe: the rotation that brings the
    coordinates to the centre. *)
Definition orthographic_locate (coord : number * number) (g : Globe.t)
    : result (option (list number)) :=
  projection ← deref (Globe.projection g);
  mret (Some [(- coord.1)%num; (- coord.2)%num; (Projection.rotate projection).2]).

(** ** The development server: the catalog of the GIA datasets *)

Module Catalog.

Import Digits.

Local Open Scope string_scope.

(** [s] without the prefix [p], if it starts with it. *)
Fixpoint drop_prefix (p s : string) : option string :=
  match p, s with
  | "", _ => Some s
  | String a p', String b s' => if Ascii.eqb a b then drop_prefix p' s' else None
  | String _ _, "" => None
  end.

(** [/^gia-\d+ya\.json$/.test(file)]. *)
Definition is_dataset (file : string) : bool :=
  match drop_prefix "gia-" file with
  | Some rest =>
      let '(_, cnt, r) := read_digits rest 0 0 in
      (0 <? cnt)%nat && (r =? "ya.json")
  | None => false
  end.

(** The digits of a match of [/gia-(\d+)ya/] at the head of [s], as
    [parseInt] reads them. *)
Definition year_at (s : string) : option N :=
  match drop_prefix "gia-" s with
  | Some rest =>
      let '(v, cnt, r) := read_digits rest 0 0 in
      if (0 <? cnt)%nat && bool_decide (is_Some (drop_prefix "ya" r)) then Some v else None
  | None => None
  end.

(** [parseInt(filename.match(/gia-(\d+)ya/)[1])]: the year of the leftmost
    match; without a match, [match] returns [null] and the index throws. *)
Fixpoint first_year (s : string) : option N :=
  match year_at s with
  | Some v => Some v
  | None => match s with
            | "" => None
            | String _ s' => first_year s'
            end
  end.

Definition getYear (filename : string) : result Z :=
  match first_year filename with
  | Some v => Ok (Z.of_N v)
  | None => Throw TypeError
  end.


(** The comparator of the sort. *)
Definition compare (a b : string) : result Z :=
  ya ← getYear a; yb ← getYear b; mret (ya - yb)%Z.

(** [sort(compare)]: the sort of an array is stable, so for a comparator
    that orders by a key it is the sort by insertion of each element after
    the elements that do not come after it. *)
Fixpoint insert (x : string) (l : list string) : result (list string) :=
  match l with
  | [] => Ok [x]
  | y :: l' =>
      c ← compare x y;
      if (c <? 0)%Z then Ok (x :: l) else cons y <$> insert x l'
  end.

Definition sort (l : list string) : result (list string) :=
  foldl (fun acc x => acc ← acc; insert x acc) (Ok []) l.

(** The files of the catalog, from the names in the directory. *)
Definition files (names : list string) : result (list string) :=
  sort (List.filter is_dataset names).

(** [JSON.stringify] of a string: the quotation mark, the backslash and
    the control characters are escaped. *)
Definition hex_digit (n : N) : ascii :=
  if (n <? 10)%N then digit_char n else ascii_of_N (87 + n).

Definition escape (c : ascii) : string :=
  let n := N_of_ascii c in
  let backslash (s : string) : string := String "092" s in
  if (n =? 34)%N then backslash (String c "")
  else if (n =? 92)%N then backslash (String c "")
  else if (n =? 8)%N then backslash "b"
  else if (n =? 12)%N then backslash "f"
  else if (n =? 10)%N then backslash "n"
  else if (n =? 13)%N then backslash "r"
  else if (n =? 9)%N then backslash "t"
  else if (n <? 32)%N
       then backslash
              ("u00" ++ String (hex_digit (n / 16)) (String (hex_digit (n mod 16)) ""))
  else String c "".

Fixpoint escaped (s : string) : string :=
  match s with
  | "" => ""
  | String c s' => escape c ++ escaped s'
  end.

Definition quote (s : string) : string :=
  String "034" (escaped s ++ String "034" "").

(** [JSON.stringify(files, null, 2)] for an array of strings. *)
Definition stringify (l : list string) : string :=
  match l with
  | [] => "[]"
  | _ =>
      "[" ++ String "010" ""
      ++ String.concat ("," ++ String "010" "") ((fun f => "  " ++ quote f) <$> l)
      ++ String "010" "" ++ "]"
  end.


(** What the file system does: the names that [readdirSync] returns and
    the outcome of [writeFileSync], either of which may throw. *)
Record fs : Type := {
  readdirSync : result (list string);
  writeFileSync : string → result unit;
}.

(** What a run leaves: the contents written to [catalog.json], the line
    logged, and what is logged after an error is caught. *)
Record outcome : Type := {
  written : option string;
  logged : list string;
  errors : list exn;
}.

(** Generates the catalog of the GIA datasets from the files that are
    there. *)
Definition generateGIACatalog (sys : fs) : outcome :=
  match (names ← readdirSync sys;
         files ← files names;
         _ ← writeFileSync sys (stringify files);
         mret files) with
  | Ok files =>
      {| written := Some (stringify files);
         logged := [ "Generated GIA catalog with "
                     ++ ToString.of_number (zn (Z.of_nat (length files)))
                     ++ " datasets: " ++ join ", " files ];
         errors := [] |}
  | Throw error => {| written := None; logged := []; errors := [error] |}
  end.

End Catalog.

(** * Properties *)

(** ** Facts about numbers *)

Section NumberFacts.

Local Open Scope Q_scope.

Lemma Qle_bool_false (x y : Q) : Qle_bool x y = false → y < x.
Proof.
  intros E. apply Qnot_le_lt. intros L.
  apply Qle_bool_iff in L. congruence.
Qed.

End NumberFacts.

(** Turns the comparisons of rationals in the context and the goal into
    propositions, and drops the normalisations. *)
Ltac q_props :=
  repeat match goal with
    | H : Qle_bool _ _ = true |- _ => apply Qle_bool_iff in H
    | H : Qle_bool _ _ = false |- _ => apply Qle_bool_false in H
    | |- Qle_bool _ _ = true => apply Qle_bool_iff
    end;
  repeat match goal with
    | H : context [Qred _] |- _ => rewrite Qred_correct in H
    end;
  rewrite ?Qred_correct;
  change (inject_Z 0) with 0%Q in *;
  change (inject_Z 1) with 1%Q in *.

(** ** Clamping the bounds to the view *)

Section ClampedBounds.






End ClampedBounds.




(** ** The registry of projections *)

Section Registry.

Context `{D3}.

Lemma registry_lookup (name : string) (ctor : Z → View.t → result Globe.t) :
  globes !! name = Some ctor → (name, ctor) ∈ registry.
Proof. unfold globes. apply elem_of_list_to_map_2. Qed.

(** The rotation at two time zones an hour apart tells the variants that
    use the time zone from those that do not. *)
Lemma derives_from_timezone_iff (name : string) :
  name ∈ timezone_variants
  ↔ ∃ ctor, globes !! name = Some ctor ∧ derives_from_timezone ctor.
Proof.
  split.
  - unfold timezone_variants. intros Hin.
    repeat (apply elem_of_cons in Hin as [-> | Hin]);
      [ exists conicEquidistant | exists equirectangular | exists orthographic | ];
      try (split; [reflexivity | intros tz view; reflexivity]).
    inversion Hin.
  - intros (ctor & Hl & Hd).
    pose proof (Hd 0 (View.make 0 0)) as D0.
    pose proof (Hd (-60) (View.make 0 0)) as D1.
    apply registry_lookup in Hl. unfold registry in Hl.
    repeat (apply elem_of_cons in Hl as [E | Hl]; [inversion E; subst; clear E |]).
    all: try (inversion Hl).
    all: try (unfold timezone_variants; set_solver).
    all: exfalso; cbv in D0, D1; congruence.
Qed.

(** C3, as amended.  Of the eight named projection constructors of the
    registry, exactly three (conic_equidistant, equirectangular and
    orthographic) derive their default rotation from the time zone offset,
    as [floorMod(timezoneOffsetMinutes / 4, 360)]. *)
Theorem three_variants_derive_from_timezone :
  length registry = 8%nat
  ∧ timezone_variants = ["conic_equidistant"; "equirectangular"; "orthographic"]%string
  ∧ exactly_derive 3.
Proof.
  split; [reflexivity | split; [reflexivity |]].
  exists timezone_variants. split; [| split].
  - apply (bool_decide_unpack _). vm_compute. reflexivity.
  - reflexivity.
  - apply derives_from_timezone_iff.
Qed.

End Registry.

(** C3 fails as stated: not seven of the constructors derive their default
    rotation from the time zone. *)
Lemma not_seven_variants_derive_from_timezone :
  ¬ @exactly_derive chart_d3 7.
Proof.
  intros (names & Hnd & Hlen & Hiff).
  assert (Hsub : names ⊆+ timezone_variants).
  { apply NoDup_submseteq; [exact Hnd |].
    intros name Hin. apply (@derives_from_timezone_iff chart_d3), Hiff, Hin. }
  apply submseteq_length in Hsub. rewrite Hlen in Hsub. simpl in Hsub. lia.
Qed.

(** ** The precision during a session *)

Section Sessions.

Lemma manipulator_ok (g : Globe.t) (p : Projection.t)
    (startMouse : number * number) (startScale : number) :
  Globe.projection g = Some p →
  manipulator startMouse startScale g =
    Ok (Manipulator.make startMouse (zn 60 / startScale)%num
          (((Projection.rotate p).1.1 / (zn 60 / startScale))%num,
           (- (Projection.rotate p).1.2 / (zn 60 / startScale))%num)
          (Projection.precision p),
        Globe.set_projection
          (Some (Projection.set_precision (Projection.precision p * zn 10)%num p)) g).
Proof. intros Hp. unfold manipulator. rewrite Hp. reflexivity. Qed.

(** C6, as amended.  A session records the precision of the projection at
    construction and sets it to ten times that value; [end()] sets the
    precision back to the recorded value, whatever the moves in between, and
    a second [end()] sets the same value again: the precision stays the
    original one. *)
Theorem end_restores_precision (g : Globe.t) (p : Projection.t)
    (startMouse : number * number) (startScale : number) :
  Globe.projection g = Some p →
  ∃ m g' p',
    manipulator startMouse startScale g = Ok (m, g')
    ∧ Globe.projection g' = Some p'
    ∧ Manipulator.original m = Projection.precision p
    ∧ Projection.precision p' = (Projection.precision p * zn 10)%num
    ∧ ∀ q : Projection.t,
        Projection.precision (Manipulator.end_ m q) = Projection.precision p
        ∧ Manipulator.end_ m (Manipulator.end_ m q) = Manipulator.end_ m q.
Proof.
  intros Hp. eexists _, _, _.
  split; [apply manipulator_ok, Hp |].
  repeat split.
Qed.

End Sessions.

Lemma end_restores_precision_witness :
  ∃ m g' p',
    manipulator (zn 10, zn 20) (zn 300) chart_globe = Ok (m, g')
    ∧ Globe.projection g' = Some p'
    ∧ Manipulator.original m = Fin (1 # 10)
    ∧ Projection.precision p' = (Fin (1 # 10) * zn 10)%num
    ∧ ∀ q : Projection.t,
        Projection.precision (Manipulator.end_ m q) = Fin (1 # 10)
        ∧ Manipulator.end_ m (Manipulator.end_ m q) = Manipulator.end_ m q.
Proof.
  exact (end_restores_precision chart_globe
           (Projection.make Equirectangular (Fin 0, Fin 0, Fin 0) (zn 150)
              (zn 480, zn 250) (Fin (1 # 10)) None None)
           (zn 10, zn 20) (zn 300) eq_refl).
Defined.

(** C6 fails as stated: after a second [end()] the precision is still the
    original one, a tenth, not a corrupted one. *)
Lemma end_twice_keeps_precision :
  ∃ p m g' p',
    Globe.projection chart_globe = Some p
    ∧ Projection.precision p = Fin (1 # 10)
    ∧ manipulator (zn 10, zn 20) (zn 300) chart_globe = Ok (m, g')
    ∧ Globe.projection g' = Some p'
    ∧ Projection.precision p' = Fin 1
    ∧ Projection.precision (Manipulator.end_ m p') = Fin (1 # 10)
    ∧ Projection.precision (Manipulator.end_ m (Manipulator.end_ m p')) = Fin (1 # 10).
Proof. eexists _, _, _, _. repeat split. Qed.

(** ** Moves of a session *)

Section Signs.

Local Open Scope Q_scope.

Lemma sgn_spec (q : Q) :
  match Num.sgn q with
  | Eq => q == 0
  | Lt => q < 0
  | Gt => 0 < q
  end.
Proof.
  unfold Num.sgn. destruct q as [n d]. simpl.
  destruct (Z.compare_spec n 0) as [E | L | G].
  - subst. reflexivity.
  - unfold Qlt. simpl. lia.
  - unfold Qlt. simpl. lia.
Qed.


Lemma sgn_Qred (q : Q) : Num.sgn (Qred q) = Num.sgn q.
Proof.
  pose proof (sgn_spec q) as S. pose proof (sgn_spec (Qred q)) as R.
  destruct (Num.sgn q), (Num.sgn (Qred q)); try reflexivity;
    rewrite Qred_correct in R; exfalso; lra.
Qed.


End Signs.

Section DragBack.

Local Open Scope Q_scope.



End DragBack.

Section MoveAbsolute.



End MoveAbsolute.


(** ** Fit and orientation *)

Section Orientation.

Context `{D3}.

(** What the setter does when it returns: the rotation [r] and the scale
    [s] it chose, set on the current projection with the centre of the
    view. *)
Lemma orientation_set_Ok (o : string) (tz : Z) (view : View.t) (g g' : Globe.t) :
  orientation_set o tz view g = Ok g' →
  ∃ p r s,
    Globe.projection g = Some p
    ∧ (if Num.isFinite (ToNumber.of_part (split "," o) 0)
          && Num.isFinite (ToNumber.of_part (split "," o) 1)
       then Ok [(- ToNumber.of_part (split "," o) 0)%num;
                (- ToNumber.of_part (split "," o) 1)%num;
                (Projection.rotate p).2]
       else Projection.rotate_array <$> Globe.newProjection g tz view) = Ok r
    ∧ (if Num.isFinite (ToNumber.of_part (split "," o) 2)
       then Ok (clamp (ToNumber.of_part (split "," o) 2)
                  (Globe.scaleExtent g).1 (Globe.scaleExtent g).2)
       else fit tz view g) = Ok s
    ∧ g' = Globe.set_projection
             (Some (Projection.set_translate (Globe.center g view)
                      (Projection.set_scale s (Projection.set_rotate r p)))) g.
Proof.
  unfold orientation_set. intros Hs.
  destruct (Globe.projection g) as [p |]; [| discriminate Hs].
  cbn [deref mbind result_bind] in Hs.
  destruct (if Num.isFinite _ && Num.isFinite _ then _ else _) as [r | e] eqn:Hr;
    [| discriminate Hs].
  destruct (if Num.isFinite (ToNumber.of_part _ 2) then _ else _) as [s | e] eqn:Hsc;
    [| discriminate Hs].
  injection Hs as <-. exists p, r, s. auto.
Qed.

Lemma fit_set_projection (tz : Z) (view : View.t) (p : option Projection.t) (g : Globe.t) :
  fit tz view (Globe.set_projection p g) = fit tz view g.
Proof. reflexivity. Qed.

Lemma fit_orients (g g' : Globe.t) (tz : Z) (view : View.t) :
  orients g g' → fit tz view g' = fit tz view g.
Proof.
  intros (o & tz' & view' & Ho).
  apply orientation_set_Ok in Ho as (p & r & s & _ & _ & _ & ->).
  apply fit_set_projection.
Qed.

Lemma fit_oriented (g g' : Globe.t) (tz : Z) (view : View.t) :
  oriented g g' → fit tz view g' = fit tz view g.
Proof.
  induction 1 as [g | g g1 g2 Hstep _ IH]; [reflexivity |].
  rewrite IH. apply fit_orients, Hstep.
Qed.

(** C8.  The value of [fit(view)] does not depend on the current rotation of
    the globe: in any two states reached by calls of [orientation(o, view)]
    on the same globe, [fit(view)] returns the same value. *)
Theorem fit_rotation_independent (g g1 g2 : Globe.t) (tz : Z) (view : View.t) :
  oriented g g1 → oriented g g2 → fit tz view g1 = fit tz view g2.
Proof.
  intros H1 H2. rewrite (fit_oriented g g1), (fit_oriented g g2) by assumption.
  reflexivity.
Qed.

End Orientation.

Section OrientationOnChart.

#[local] Existing Instance chart_d3.

Lemma fit_rotation_independent_witness :
  ∃ g1 g2 p1 p2,
    orientation_set "10,20,300" 0 chart_view chart_globe = Ok g1
    ∧ orientation_set "-73.99,40.73,500" 0 chart_view g1 = Ok g2
    ∧ Globe.projection g1 = Some p1 ∧ Globe.projection g2 = Some p2
    ∧ Projection.rotate p1 = (Fin (-10), Fin (-20), Fin 0)
    ∧ Projection.rotate p2 = (Fin (7399 # 100), Fin (-4073 # 100), Fin 0)
    ∧ fit 0 chart_view g1 = fit 0 chart_view g2.
Proof.
  set (p1 := Projection.make Equirectangular (Fin (-10), Fin (-20), Fin 0) (Fin 300)
               (Fin 400, Fin 200) (Fin (1 # 10)) None None).
  set (p2 := Projection.make Equirectangular (Fin (7399 # 100), Fin (-4073 # 100), Fin 0)
               (Fin 500) (Fin 400, Fin 200) (Fin (1 # 10)) None None).
  set (g1 := Globe.set_projection (Some p1) chart_globe).
  set (g2 := Globe.set_projection (Some p2) chart_globe).
  assert (E1 : orientation_set "10,20,300" 0 chart_view chart_globe = Ok g1)
    by reflexivity.
  assert (E2 : orientation_set "-73.99,40.73,500" 0 chart_view g1 = Ok g2)
    by reflexivity.
  assert (O1 : oriented chart_globe g1).
  { eapply rtc_l; [exists "10,20,300"%string, 0, chart_view; exact E1 | apply rtc_refl]. }
  assert (O2 : oriented chart_globe g2).
  { eapply rtc_r; [exact O1 | exists "-73.99,40.73,500"%string, 0, chart_view; exact E2]. }
  exists g1, g2, p1, p2.
  do 2 (split; [assumption |]). do 4 (split; [reflexivity |]).
  exact (fit_rotation_independent chart_globe g1 g2 0 chart_view O1 O2).
Defined.

End OrientationOnChart.

(** ** Orientation strings that are not numbers *)

Section Fallback.

Context `{D3}.


(** Every globe of the registry has a projection, and its [newProjection]
    returns one for every view. *)
Lemma registry_globe (name : string) (ctor : Z → View.t → result Globe.t)
    (tz : Z) (view : View.t) :
  globes !! name = Some ctor →
  ∃ g p, ctor tz view = Ok g ∧ Globe.projection g = Some p
         ∧ ∀ tz' view', ∃ dp, Globe.newProjection g tz' view' = Ok dp.
Proof.
  intros Hl. apply registry_lookup in Hl. unfold registry in Hl.
  repeat (apply elem_of_cons in Hl as [E | Hl]; [inversion E; subst; clear E |]).
  all: try (inversion Hl).
  all: eexists _, _; split; [reflexivity | split; [reflexivity |]].
  all: intros tz' view'; eexists; reflexivity.
Qed.


End Fallback.

Section FallbackOnChart.

#[local] Existing Instance chart_d3.



End FallbackOnChart.

(** ** The relief cache *)

Section Cache.

Context `{D3}.

(** A render leaves the cache as it is or stores one buffer under the key of
    the call. *)
Lemma drawRelief_cache (view : View.t) (p : Projection.t) (g : Globe.t) :
  Globe.reliefCache (drawRelief view p g).1 = Globe.reliefCache g
  ∨ (Globe.useReliefLo g = false
     ∧ ∃ img, Globe.reliefCache (drawRelief view p g).1
              = <[getReliefCacheKey p view := img]> (Globe.reliefCache g)).
Proof.
  destruct g as [hi lo useLo fs fc rc cache proj np cen ext].
  unfold drawRelief. cbn [Globe.useReliefLo Globe.reliefLo Globe.reliefHi
    Globe.reliefCanvas Globe.reliefFastCanvas Globe.reliefCache
    Globe.set_reliefCanvas Globe.set_reliefFastCanvas Globe.set_reliefCache].
  destruct useLo.
  - left. destruct (Relief.loaded lo); [| reflexivity].
    destruct (Relief.data lo); [| reflexivity].
    destruct rc; [| reflexivity]. destruct fc; [| reflexivity].
    destruct (composite _ _ _ _ _ _); reflexivity.
  - destruct (Relief.loaded hi); [| left; reflexivity].
    destruct (Relief.data hi); [| left; reflexivity].
    destruct rc; [| left; reflexivity].
    destruct (cache_hit _ _); [left; reflexivity |].
    destruct (composite _ _ _ _ _ _); [| left; reflexivity].
    right. split; [reflexivity |]. eexists. reflexivity.
Qed.

Lemma drawRelief_size (view : View.t) (p : Projection.t) (g : Globe.t) :
  (size (Globe.reliefCache (drawRelief view p g).1) ≤ S (size (Globe.reliefCache g)))%nat.
Proof.
  destruct (drawRelief_cache view p g) as [-> | (_ & img & ->)]; [lia |].
  rewrite map_size_insert. destruct (_ !! _); simpl; lia.
Qed.

Lemma drawRelief_other_keys (view : View.t) (p : Projection.t) (g : Globe.t) (k : string) :
  k ≠ getReliefCacheKey p view →
  Globe.reliefCache (drawRelief view p g).1 !! k = Globe.reliefCache g !! k.
Proof.
  intros Hk.
  destruct (drawRelief_cache view p g) as [-> | (_ & img & ->)]; [reflexivity |].
  apply lookup_insert_ne. congruence.
Qed.

Lemma renders_snoc (calls : list (View.t * Projection.t)) (call : View.t * Projection.t)
    (g : Globe.t) :
  renders (calls ++ [call]) g = (drawRelief call.1 call.2 (renders calls g)).1.
Proof. unfold renders. rewrite foldl_app. reflexivity. Qed.

(** C1, as amended.  The relief cache of a globe is a map from cache keys to
    pixel buffers.  A render call leaves it as it is or, after a
    full-resolution composite, stores the new buffer under the key of the
    call, replacing the buffer stored under that key and no other; so a
    sequence of [n] render calls adds at most [n] entries, and keeps every
    entry whose key is the key of none of them.  Only [clearReliefCache]
    empties the cache. *)
Theorem relief_cache_is_keyed (calls : list (View.t * Projection.t)) (g : Globe.t) :
  (∀ view p,
     let g' := (drawRelief view p g).1 in
     Globe.reliefCache g' = Globe.reliefCache g
     ∨ (Globe.useReliefLo g = false
        ∧ ∃ img, Globe.reliefCache g'
                 = <[getReliefCacheKey p view := img]> (Globe.reliefCache g)))
  ∧ (size (Globe.reliefCache (renders calls g))
     ≤ size (Globe.reliefCache g) + length calls)%nat
  ∧ (∀ k, (∀ call, call ∈ calls → k ≠ getReliefCacheKey call.2 call.1) →
          Globe.reliefCache (renders calls g) !! k = Globe.reliefCache g !! k)
  ∧ Globe.reliefCache (clearReliefCache (renders calls g)) = ∅.
Proof.
  split; [intros view p; apply drawRelief_cache |].
  split; [| split; [| reflexivity]].
  - induction calls as [| call calls IH] using rev_ind; [simpl; lia |].
    rewrite renders_snoc, length_app. simpl.
    pose proof (drawRelief_size call.1 call.2 (renders calls g)). lia.
  - induction calls as [| call calls IH] using rev_ind; [reflexivity |].
    intros k Hk. rewrite renders_snoc, drawRelief_other_keys.
    + apply IH. intros c Hc. apply Hk, elem_of_app. left. exact Hc.
    + apply Hk, elem_of_app. right. apply list_elem_of_singleton. reflexivity.
Qed.

(** C9.  A render call with the low-resolution flag set, the low tier being
    loaded, neither reads nor writes the relief cache: the cache after the
    call is the cache before it, and with any other cache in place the call
    does the same and leaves that cache.  When it returns, what it has drawn
    is the downsampled composite, put on the fast canvas and drawn from there
    onto the cleared relief canvas without smoothing. *)
Theorem lowres_render_bypasses_cache (view : View.t) (p : Projection.t) (g : Globe.t) :
  Globe.useReliefLo g = true →
  Relief.loaded (Globe.reliefLo g) = true →
  let r := drawRelief view p g in
  Globe.reliefCache r.1 = Globe.reliefCache g
  ∧ (∀ cache,
       drawRelief view p (Globe.set_reliefCache cache g)
       = (Globe.set_reliefCache cache r.1, r.2))
  ∧ (∀ data ctx fast,
       Relief.data (Globe.reliefLo g) = Some data →
       Globe.reliefCanvas g = Some ctx →
       Globe.reliefFastCanvas g = Some fast →
       r.2 = Ok () →
       ∃ outImg,
         composite (Globe.reliefLo g) data p (Canvas.width fast) (Canvas.height fast)
           (at_fast (Canvas.width fast) (Canvas.height fast) view) = Ok outImg
         ∧ Globe.reliefFastCanvas r.1
           = Some (Canvas.draw (PutImageData outImg 0 0) fast)
         ∧ Globe.reliefCanvas r.1
           = Some (Canvas.make (Canvas.width ctx) (Canvas.height ctx) false
                     (Canvas.drawn ctx
                      ++ [ ClearRect 0 0 (View.width view) (View.height view);
                           DrawImage (Canvas.width fast) (Canvas.height fast)
                             (Canvas.drawn fast ++ [PutImageData outImg 0 0])
                             0 0 (View.width view) (View.height view) false ]))).
Proof.
  intros Hlo Hloaded.
  destruct g as [hi lo useLo fs fc rc cache proj np cen ext].
  cbn [Globe.useReliefLo Globe.reliefLo] in Hlo, Hloaded. subst useLo.
  cbn zeta. unfold drawRelief.
  cbn [Globe.useReliefLo Globe.reliefLo Globe.reliefHi
    Globe.reliefCanvas Globe.reliefFastCanvas Globe.reliefCache
    Globe.set_reliefCanvas Globe.set_reliefFastCanvas Globe.set_reliefCache].
  rewrite Hloaded.
  destruct (Relief.data lo) as [data |].
  2: { repeat split. intros ? ? ? [=]. }
  destruct rc as [ctx |].
  2: { repeat split. intros ? ? ? _ [=]. }
  destruct fc as [fast |].
  2: { repeat split. intros ? ? ? _ _ [=]. }
  destruct (composite lo data p _ _ _) as [outImg | e] eqn:Hc.
  2: { repeat split. intros ? ? ? _ _ _ [=]. }
  repeat split.
  intros data' ctx' fast' [= <-] [= <-] [= <-] _.
  exists outImg. rewrite Hc. repeat split.
  cbn [fst Globe.reliefCanvas]. unfold Canvas.draw, Canvas.set_imageSmoothingEnabled.
  cbn [Canvas.width Canvas.height Canvas.drawn Canvas.imageSmoothingEnabled].
  rewrite <- app_assoc. reflexivity.
Qed.

End Cache.

Section CacheOnChart.

#[local] Existing Instance chart_d3.

Lemma lowres_render_bypasses_cache_witness :
  let r := drawRelief relief_view (relief_projection 90) (relief_globe true) in
  r.2 = Ok ()
  ∧ Globe.reliefCache r.1 = ∅
  ∧ ∀ cache,
      drawRelief relief_view (relief_projection 90)
        (Globe.set_reliefCache cache (relief_globe true))
      = (Globe.set_reliefCache cache r.1, r.2).
Proof.
  cbn zeta.
  destruct (lowres_render_bypasses_cache relief_view (relief_projection 90)
              (relief_globe true) eq_refl eq_refl) as (Hc & Hany & _).
  split; [vm_compute; reflexivity | split; [exact Hc | exact Hany]].
Defined.

(** C1 fails as stated: two full-resolution renders at two scales leave two
    entries in the cache. *)
Lemma relief_cache_holds_two_entries :
  let g0 := relief_globe false in
  let r1 := drawRelief relief_view (relief_projection 90) g0 in
  let r2 := drawRelief relief_view (relief_projection 45) r1.1 in
  Globe.useReliefLo g0 = false
  ∧ Globe.reliefCache g0 = ∅
  ∧ r1.2 = Ok () ∧ r2.2 = Ok ()
  ∧ getReliefCacheKey (relief_projection 90) relief_view = "0,0,0:13500:2,1:4:2"%string
  ∧ getReliefCacheKey (relief_projection 45) relief_view = "0,0,0:6750:2,1:4:2"%string
  ∧ size (Globe.reliefCache r2.1) = 2%nat.
Proof. cbn zeta. repeat split; vm_compute; reflexivity. Qed.

End CacheOnChart.

(** ** Loops *)

Section Loops.

Context {A S : Type}.

(** A loop whose steps each keep a property of the state, or establish a
    stronger one for good, ends in one of the two. *)
Lemma for_each_invariant (I J : S → Prop) (l : list A) (body : A → S → result S) :
  (∀ a s s', a ∈ l → body a s = Ok s' → (I s → I s' ∨ J s') ∧ (J s → J s')) →
  ∀ s s', for_each l body s = Ok s' → (I s → I s' ∨ J s') ∧ (J s → J s').
Proof.
  induction l as [| a l IH]; intros Hbody s s' Hrun.
  - injection Hrun as <-. auto.
  - cbn [for_each mbind result_bind] in Hrun.
    destruct (body a s) as [s1 |] eqn:Ha; [| discriminate Hrun].
    destruct (Hbody a s s1 ltac:(left) Ha) as [HI HJ].
    destruct (IH (fun b t t' Hb => Hbody b t t' (list_elem_of_further _ _ _ Hb)) s1 s' Hrun)
      as [HI' HJ'].
    split; [intros Hs; destruct (HI Hs); auto | auto].
Qed.

(** If moreover one step establishes the stronger property, the loop ends
    in it. *)
Lemma for_each_establishes (I J : S → Prop) (l : list A) (body : A → S → result S)
    (a : A) :
  a ∈ l →
  (∀ b s s', b ∈ l → body b s = Ok s' → (I s → I s' ∨ J s') ∧ (J s → J s')) →
  (∀ s s', body a s = Ok s' → I s → J s') →
  ∀ s s', for_each l body s = Ok s' → I s → J s'.
Proof.
  induction l as [| b l IH]; intros Hin Hbody Ha s s' Hrun Hs.
  - inversion Hin.
  - cbn [for_each mbind result_bind] in Hrun.
    destruct (body b s) as [s1 |] eqn:Hb; [| discriminate Hrun].
    assert (Hbody' : ∀ c t t', c ∈ l → body c t = Ok t' →
                       (I t → I t' ∨ J t') ∧ (J t → J t'))
      by (intros c t t' Hc; apply Hbody; right; exact Hc).
    destruct (Hbody b s s1 ltac:(left) Hb) as [HI HJ].
    apply elem_of_cons in Hin as [-> | Hin].
    + apply (for_each_invariant I J l body Hbody' s1 s' Hrun).
      apply (Ha s s1 Hb Hs).
    + destruct (HI Hs) as [Hs1 | Hs1].
      * apply (IH Hin Hbody' Ha s1 s' Hrun Hs1).
      * apply (for_each_invariant I J l body Hbody' s1 s' Hrun). exact Hs1.
Qed.

End Loops.

(** ** Typed arrays *)

Section TypedArrays.

Lemma is_int_zn (z : Z) : is_int (zn z) z.
Proof. simpl. reflexivity. Qed.

Lemma is_int_add (a b : number) (x y : Z) :
  is_int a x → is_int b y → is_int (a + b)%num (x + y).
Proof.
  destruct a, b; simpl; try contradiction. intros -> ->.
  rewrite Qred_correct, inject_Z_plus. reflexivity.
Qed.

Lemma is_int_mul (a b : number) (x y : Z) :
  is_int a x → is_int b y → is_int (a * b)%num (x * y).
Proof.
  destruct a, b; simpl; try contradiction. intros -> ->.
  rewrite Qred_correct, inject_Z_mult. reflexivity.
Qed.

(** Reading a typed array at a number that is an index. *)
Lemma get_is_int (d : list byte) (n : number) (z : Z) :
  is_int n z → 0 ≤ z →
  Uint8Clamped.get d n = from_option byte_number NaN (d !! Z.to_nat z).
Proof.
  destruct n as [| |q|]; simpl; try contradiction. intros Hq Hz.
  assert (Hf : Qfloor q = z) by (rewrite Hq; apply Qfloor_Z).
  unfold ToString.is_integer. rewrite Hf.
  rewrite (Qeq_eq_bool _ _ (Qeq_sym _ _ Hq)).
  destruct (Z.leb_spec 0 z); [| lia]. simpl.
  destruct (d !! Z.to_nat z); reflexivity.
Qed.

(** A byte read from one typed array is stored unchanged in another. *)
Lemma clamp_byte_number (b : byte) : Uint8Clamped.clamp_byte (byte_number b) = b.
Proof. destruct b; vm_compute; reflexivity. Qed.

Lemma set_nonneg (d : list byte) (i : Z) (v : number) :
  0 ≤ i → Uint8Clamped.set d i v = <[Z.to_nat i := Uint8Clamped.clamp_byte v]> d.
Proof. intros Hi. unfold Uint8Clamped.set. destruct (Z.ltb_spec i 0); [lia | reflexivity]. Qed.

End TypedArrays.

(** ** The body of the pixel loops *)

Section Pixel.

Context `{D3}.

Lemma reliefPixel_frame (relief : Relief.t) (data : list byte) (p : Projection.t)
    (pt : number * number) (oidx : Z) (out out' : list byte) :
  0 ≤ oidx →
  reliefPixel relief data p pt oidx out = Ok out' →
  length out' = length out
  ∧ ∀ i : nat, (i < Z.to_nat oidx ∨ Z.to_nat oidx + 4 ≤ i)%nat → out' !! i = out !! i.
Proof.
  intros Ho. unfold reliefPixel.
  destruct (d3_invert p pt) as [[lon lat] |]; [| intros [= <-]; auto].
  destruct (Relief.img relief) as [[iw ih] |]; cbn [deref mbind result_bind];
    [| discriminate].
  destruct (_ || _); [intros [= <-]; auto |].
  rewrite !set_nonneg by lia. intros [= <-].
  split; [rewrite !length_insert; reflexivity |].
  intros i Hi. rewrite !list_lookup_insert_ne by lia. reflexivity.
Qed.

Lemma in_range (iw i : Z) :
  0 ≤ i < iw → (zn i <? zn 0)%num = false ∧ (zn i >=? zn iw)%num = false.
Proof.
  intros Hi. unfold zn. simpl. split.
  - apply negb_false_iff, Qle_bool_iff. rewrite <- Zle_Qle. lia.
  - destruct (Qle_bool (inject_Z iw) (inject_Z i)) eqn:E; [| reflexivity].
    apply Qle_bool_iff in E. rewrite <- Zle_Qle in E. lia.
Qed.

Lemma pixel_at_Some (d : list byte) (n : Z) (r g b a : byte) :
  pixel_at d n = Some (r, g, b, a) →
  0 ≤ n
  ∧ d !! Z.to_nat (4 * n) = Some r ∧ d !! Z.to_nat (4 * n + 1) = Some g
  ∧ d !! Z.to_nat (4 * n + 2) = Some b ∧ d !! Z.to_nat (4 * n + 3) = Some a.
Proof.
  unfold pixel_at. destruct (Z.ltb_spec n 0); [discriminate |].
  destruct (d !! Z.to_nat (4 * n)); [| discriminate].
  destruct (d !! Z.to_nat (4 * n + 1)); [| discriminate].
  destruct (d !! Z.to_nat (4 * n + 2)); [| discriminate].
  destruct (d !! Z.to_nat (4 * n + 3)); [| discriminate].
  cbn. intros [= -> -> -> ->]. auto.
Qed.

(** A pixel whose point has an inverse projection and whose lookup falls on
    the pixel [(i, j)] of the raster stores the bytes of that pixel, the
    alpha attenuated. *)
Lemma reliefPixel_hit (relief : Relief.t) (data : list byte) (p : Projection.t)
    (pt : number * number) (oidx : Z) (out : list byte)
    (iw ih i j : Z) (lon lat : number) (r g b a : byte) :
  0 ≤ oidx →
  d3_invert p pt = Some (lon, lat) →
  Relief.img relief = Some (iw, ih) →
  raster_column iw lon = zn i → 0 ≤ i < iw →
  raster_row ih lat = zn j → 0 ≤ j < ih →
  pixel_at data (j * iw + i) = Some (r, g, b, a) →
  reliefPixel relief data p pt oidx out
  = Ok (stored out (Z.to_nat oidx) r g b (attenuate a)).
Proof.
  intros Ho Hinv Himg Hcol Hi Hrow Hj Hpx.
  apply pixel_at_Some in Hpx as (Hn & Hr & Hg & Hb & Ha).
  unfold reliefPixel. rewrite Hinv, Himg. cbn [deref mbind result_bind fst snd].
  fold (raster_column iw lon). fold (raster_row ih lat). rewrite Hcol, Hrow.
  destruct (in_range iw i Hi) as [-> ->]. destruct (in_range ih j Hj) as [-> ->].
  cbn [orb].
  assert (Hidx : is_int ((zn j * zn iw + zn i) * zn 4)%num (4 * (j * iw + i))).
  { replace (4 * (j * iw + i)) with ((j * iw + i) * 4) by lia.
    repeat first [apply is_int_mul | apply is_int_add | apply is_int_zn]. }
  rewrite (get_is_int data _ (4 * (j * iw + i)) Hidx) by lia.
  rewrite (get_is_int data _ (4 * (j * iw + i) + 1)
             (is_int_add _ _ _ _ Hidx (is_int_zn 1))) by lia.
  rewrite (get_is_int data _ (4 * (j * iw + i) + 2)
             (is_int_add _ _ _ _ Hidx (is_int_zn 2))) by lia.
  rewrite (get_is_int data _ (4 * (j * iw + i) + 3)
             (is_int_add _ _ _ _ Hidx (is_int_zn 3))) by lia.
  rewrite Hr, Hg, Hb, Ha. cbn [from_option].
  rewrite !set_nonneg by lia. rewrite !clamp_byte_number.
  unfold stored, attenuate.
  replace (Z.to_nat (oidx + 1)) with (Z.to_nat oidx + 1)%nat by lia.
  replace (Z.to_nat (oidx + 2)) with (Z.to_nat oidx + 2)%nat by lia.
  replace (Z.to_nat (oidx + 3)) with (Z.to_nat oidx + 3)%nat by lia.
  reflexivity.
Qed.

Lemma stored_lookup (out : list byte) (o : nat) (r g b a : byte) :
  (o + 3 < length out)%nat →
  stored out o r g b a !! o = Some r
  ∧ stored out o r g b a !! (o + 1)%nat = Some g
  ∧ stored out o r g b a !! (o + 2)%nat = Some b
  ∧ stored out o r g b a !! (o + 3)%nat = Some a.
Proof.
  intros Hlen. unfold stored. repeat split.
  - rewrite !list_lookup_insert_ne by lia. apply list_lookup_insert_eq. lia.
  - rewrite !list_lookup_insert_ne by lia. apply list_lookup_insert_eq.
    rewrite !length_insert. lia.
  - rewrite !list_lookup_insert_ne by lia. apply list_lookup_insert_eq.
    rewrite !length_insert. lia.
  - apply list_lookup_insert_eq. rewrite !length_insert. lia.
Qed.

End Pixel.

(** ** The loops over the output *)

Section Sweep.

Context `{D3}.

Variables (relief : Relief.t) (data : list byte) (p : Projection.t).
Variables (w h : Z) (at_ : Z → Z → number * number).

(** The pixel [(x, y)] of the output is a hit on the pixel [(i, j)] of the
    raster, whose bytes are [r], [g], [b] and [a]. *)
Variables (x y iw ih i j : Z) (lon lat : number) (r g b a : byte).
Hypothesis (Hx : 0 ≤ x < w) (Hy : 0 ≤ y < h).
Hypothesis (Hinv : d3_invert p (at_ x y) = Some (lon, lat)).
Hypothesis (Himg : Relief.img relief = Some (iw, ih)).
Hypothesis (Hcol : raster_column iw lon = zn i) (Hi : 0 ≤ i < iw).
Hypothesis (Hrow : raster_row ih lat = zn j) (Hj : 0 ≤ j < ih).
Hypothesis (Hpx : pixel_at data (j * iw + i) = Some (r, g, b, a)).

(** One byte of the pixel: its offset [c] and the value [v] stored there. *)
Variables (c : nat) (v : byte).
Hypothesis (Hc : (c < 4)%nat).
Hypothesis (Hv : ∀ s : list byte,
  Z.of_nat (length s) = 4 * w * h →
  stored s (Z.to_nat ((y * w + x) * 4)) r g b (attenuate a)
    !! (Z.to_nat ((y * w + x) * 4) + c)%nat = Some v).

Let sized (s : list byte) : Prop := Z.of_nat (length s) = 4 * w * h.
Let holds (s : list byte) : Prop :=
  sized s ∧ s !! (Z.to_nat ((y * w + x) * 4) + c)%nat = Some v.

Lemma other_pixel (x' y' : Z) :
  0 ≤ x' < w → 0 ≤ y' → (x', y') ≠ (x, y) →
  (Z.to_nat ((y * w + x) * 4) + c < Z.to_nat ((y' * w + x') * 4)
   ∨ Z.to_nat ((y' * w + x') * 4) + 4 ≤ Z.to_nat ((y * w + x) * 4) + c)%nat.
Proof.
  intros Hx' Hy' Hne.
  assert (y' * w + x' ≠ y * w + x).
  { intros E. apply Hne. assert (y' = y) by nia. subst. f_equal. lia. }
  assert (0 ≤ y' * w + x') by nia. assert (0 ≤ y * w + x) by nia. lia.
Qed.

Lemma pixel_step (x' y' : Z) (s s' : list byte) :
  0 ≤ x' < w → 0 ≤ y' →
  reliefPixel relief data p (at_ x' y') ((y' * w + x') * 4) s = Ok s' →
  (sized s → sized s' ∨ holds s') ∧ (holds s → holds s').
Proof.
  intros Hx' Hy' Hrun.
  assert (Ho : 0 ≤ (y' * w + x') * 4) by nia.
  destruct (reliefPixel_frame _ _ _ _ _ _ _ Ho Hrun) as [Hlen Hframe].
  split; [intros Hs; left; unfold sized; rewrite Hlen; exact Hs |].
  intros [Hs Hl]. split; [unfold sized; rewrite Hlen; exact Hs |].
  destruct (decide ((x', y') = (x, y))) as [[= -> ->] | Hne].
  - rewrite (reliefPixel_hit relief data p _ _ s iw ih i j lon lat r g b a)
      in Hrun by assumption.
    injection Hrun as <-. apply Hv, Hs.
  - rewrite Hframe; [exact Hl | apply other_pixel; assumption].
Qed.

Lemma pixel_establishes (s s' : list byte) :
  reliefPixel relief data p (at_ x y) ((y * w + x) * 4) s = Ok s' →
  sized s → holds s'.
Proof.
  intros Hrun Hs.
  assert (Ho : 0 ≤ (y * w + x) * 4) by nia.
  rewrite (reliefPixel_hit relief data p _ _ s iw ih i j lon lat r g b a)
    in Hrun by assumption.
  injection Hrun as <-. split; [| apply Hv, Hs].
  unfold sized, stored. rewrite !length_insert. exact Hs.
Qed.

Lemma row_step (y' : Z) (s s' : list byte) :
  0 ≤ y' →
  for_each (seqZ 0 w)
    (fun x' => reliefPixel relief data p (at_ x' y') ((y' * w + x') * 4)) s = Ok s' →
  (sized s → sized s' ∨ holds s') ∧ (holds s → holds s').
Proof.
  intros Hy'. apply for_each_invariant.
  intros x' t t' Hx'. apply elem_of_seqZ in Hx'. apply pixel_step; lia.
Qed.

Lemma sweep_lookup (out out' : list byte) :
  sized out →
  sweep relief data p w h at_ out = Ok out' →
  out' !! (Z.to_nat ((y * w + x) * 4) + c)%nat = Some v.
Proof.
  intros Hs Hrun. unfold sweep in Hrun.
  refine (proj2 (for_each_establishes sized holds _ _ y _ _ _ out out' Hrun Hs)).
  - apply elem_of_seqZ. lia.
  - intros y' t t' Hy'. apply elem_of_seqZ in Hy'. apply row_step. lia.
  - intros t t'. apply for_each_establishes with (a := x).
    + apply elem_of_seqZ. lia.
    + intros x' u u' Hx'. apply elem_of_seqZ in Hx'. apply pixel_step; lia.
    + apply pixel_establishes.
Qed.

End Sweep.

Section Composite.

Context `{D3}.

Lemma sweep_attenuated (relief : Relief.t) (data : list byte) (p : Projection.t)
    (w h : Z) (at_ : Z → Z → number * number) (out out' : list byte) :
  Z.of_nat (length out) = 4 * w * h →
  sweep relief data p w h at_ out = Ok out' →
  attenuated relief data p w h at_ out'.
Proof.
  intros Hlen Hrun x y iw ih i j lon lat r g b a Hx Hy Hinv Himg Hcol Hi Hrow Hj Hpx.
  assert (Hst : ∀ s : list byte, Z.of_nat (length s) = 4 * w * h →
            (Z.to_nat ((y * w + x) * 4) + 3 < length s)%nat) by (intros s Hs; nia).
  pose proof (fun c v Hc Hv =>
    sweep_lookup relief data p w h at_ x y iw ih i j lon lat r g b a
      Hx Hy Hinv Himg Hcol Hi Hrow Hj Hpx c v Hc Hv out out' Hlen Hrun) as L.
  unfold pixel_at. destruct (Z.ltb_spec (y * w + x) 0); [nia |].
  replace (Z.to_nat (4 * (y * w + x))) with (Z.to_nat ((y * w + x) * 4) + 0)%nat by lia.
  replace (Z.to_nat (4 * (y * w + x) + 1)) with (Z.to_nat ((y * w + x) * 4) + 1)%nat by lia.
  replace (Z.to_nat (4 * (y * w + x) + 2)) with (Z.to_nat ((y * w + x) * 4) + 2)%nat by lia.
  replace (Z.to_nat (4 * (y * w + x) + 3)) with (Z.to_nat ((y * w + x) * 4) + 3)%nat by lia.
  rewrite (L 0%nat r), (L 1%nat g), (L 2%nat b), (L 3%nat (attenuate a)); try lia.
  - reflexivity.
  - intros s Hs. apply stored_lookup, Hst, Hs.
  - intros s Hs. apply stored_lookup, Hst, Hs.
  - intros s Hs. apply stored_lookup, Hst, Hs.
  - intros s Hs. rewrite Nat.add_0_r. apply stored_lookup, Hst, Hs.
Qed.

Lemma composite_attenuated (relief : Relief.t) (data : list byte) (p : Projection.t)
    (w h : Z) (at_ : Z → Z → number * number) (outImg : ImageData.t) :
  composite relief data p w h at_ = Ok outImg →
  attenuated relief data p w h at_ (ImageData.data outImg).
Proof.
  unfold composite, createImageData. intros Hrun.
  destruct ((w =? 0) || (h =? 0)) eqn:E; [discriminate Hrun |].
  cbn [mbind result_bind ImageData.data ImageData.width ImageData.height] in Hrun.
  destruct (sweep _ _ _ _ _ _ _) as [out |] eqn:Hsw; [| discriminate Hrun].
  injection Hrun as <-. cbn [ImageData.data].
  destruct (Z.le_gt_cases w 0) as [Hw | Hw];
    [intros x y; intros; lia |].
  destruct (Z.le_gt_cases h 0) as [Hh | Hh];
    [intros x y; intros; lia |].
  eapply sweep_attenuated; [| exact Hsw].
  rewrite length_replicate. rewrite !Z.abs_eq by lia. nia.
Qed.

End Composite.

(** ** The two render paths *)

Section Render.

Context `{D3}.

Lemma attenuate_round (a : byte) :
  byte_number (attenuate a) = Num.round (Num.mul64 (byte_number a) alpha_factor).
Proof. destruct a; vm_compute; reflexivity. Qed.

(** The factor and its product with a byte are those of the primitive
    binary64 floats. *)
Lemma alpha_factor_primitive : alpha_factor = of_float seven_tenths.
Proof. vm_compute. reflexivity. Qed.

Lemma alpha_product_primitive (a : byte) :
  Num.mul64 (byte_number a) alpha_factor
  = of_float (PrimFloat.mul (to_float a) seven_tenths).
Proof. destruct a; vm_compute; reflexivity. Qed.

(** The rounding of the product shows at four source alphas, where seven
    tenths of the alpha is half an integer and the product falls below it;
    everywhere else the alpha stored is the exact seven tenths, rounded. *)
Lemma attenuate_exact (a : byte) :
  a ∉ [x2d; x55; xa5; xaf]%byte →
  byte_number (attenuate a) = Num.round (byte_number a * Fin (7 # 10))%num.
Proof.
  intros Ha. destruct a; try (vm_compute; reflexivity).
  all: exfalso; apply Ha; set_solver.
Qed.

Lemma attenuate_below (a : byte) :
  a ∈ [x2d; x55; xa5; xaf]%byte →
  (byte_number (attenuate a) + zn 1)%num
  = Num.round (byte_number a * Fin (7 # 10))%num.
Proof.
  intros Ha. repeat (apply elem_of_cons in Ha as [-> | Ha]);
    [vm_compute; reflexivity .. | inversion Ha].
Qed.

(** C7.  In both render paths, when the call composites (the tier is
    loaded, the canvas is there and, at full resolution, the cache has no
    entry for the state) and returns, the image it puts on the canvas (the
    fast canvas in the low-fidelity path) is such that every pixel whose
    inverse projection is valid and whose raster lookup is in range has the
    red, green and blue of the source pixel and the alpha
    [round(sourceAlpha * 0.7)], the product being the binary64 one; an
    opaque source pixel gets the alpha 179. *)
Theorem relief_pixels_attenuated (view : View.t) (p : Projection.t) (g : Globe.t)
    (data : list byte) (ctx : Canvas.t) :
  let relief := if Globe.useReliefLo g then Globe.reliefLo g else Globe.reliefHi g in
  let r := drawRelief view p g in
  Relief.loaded relief = true →
  Relief.data relief = Some data →
  Globe.reliefCanvas g = Some ctx →
  (Globe.useReliefLo g = false →
   cache_hit (Globe.reliefCache g !! getReliefCacheKey p view) view = None) →
  r.2 = Ok () →
  (∃ outImg,
     if Globe.useReliefLo g
     then ∃ fast,
            Globe.reliefFastCanvas g = Some fast
            ∧ Globe.reliefFastCanvas r.1
              = Some (Canvas.draw (PutImageData outImg 0 0) fast)
            ∧ attenuated relief data p (Canvas.width fast) (Canvas.height fast)
                (at_fast (Canvas.width fast) (Canvas.height fast) view)
                (ImageData.data outImg)
     else Globe.reliefCanvas r.1
          = Some (Canvas.draw (PutImageData outImg 0 0)
                    (Canvas.draw
                       (ClearRect 0 0 (View.width view) (View.height view)) ctx))
          ∧ attenuated relief data p (View.width view) (View.height view) at_full
              (ImageData.data outImg))
  ∧ (∀ a, byte_number (attenuate a) = Num.round (Num.mul64 (byte_number a) alpha_factor))
  ∧ byte_number (attenuate xff) = zn 179.
Proof.
  cbn zeta. intros Hloaded Hdata Hctx Hmiss Hok.
  split; [| split; [apply attenuate_round | reflexivity]].
  destruct g as [hi lo useLo fs fc rc cache proj np cen ext].
  cbn [Globe.useReliefLo Globe.reliefLo Globe.reliefHi Globe.reliefCanvas
       Globe.reliefCache Globe.reliefFastCanvas] in *.
  subst rc. revert Hok. unfold drawRelief.
  cbn [Globe.useReliefLo Globe.reliefLo Globe.reliefHi
    Globe.reliefCanvas Globe.reliefFastCanvas Globe.reliefCache
    Globe.set_reliefCanvas Globe.set_reliefFastCanvas Globe.set_reliefCache].
  destruct useLo.
  - rewrite Hloaded, Hdata.
    destruct fc as [fast |]; [| intros [=]].
    destruct (composite lo data p _ _ _) as [outImg |] eqn:Hc; [| intros [=]].
    intros _. exists outImg, fast. cbn [fst Globe.reliefFastCanvas].
    repeat split. apply composite_attenuated, Hc.
  - rewrite Hloaded, Hdata, (Hmiss eq_refl).
    destruct (composite hi data p _ _ _) as [outImg |] eqn:Hc; [| intros [=]].
    intros _. exists outImg. cbn [fst Globe.reliefCanvas].
    split; [reflexivity |]. apply composite_attenuated, Hc.
Qed.

End Render.

Section RenderOnChart.

#[local] Existing Instance chart_d3.

(** The first pixel of the chart view looks up the first pixel of the
    relief, which is opaque. *)
Lemma relief_pixels_attenuated_witness :
  ∃ outImg ctx,
    Globe.reliefCanvas (relief_globe false) = Some ctx
    ∧ Globe.reliefCanvas
        (drawRelief relief_view (relief_projection 90) (relief_globe false)).1
      = Some (Canvas.draw (PutImageData outImg 0 0)
                (Canvas.draw (ClearRect 0 0 4 2) ctx))
    ∧ pixel_at (ImageData.data outImg) 0 = Some (x01, x02, x03, xb3)%byte.
Proof.
  set (data := [ x01; x02; x03; xff;  x11; x12; x13; x80;
                 x21; x22; x23; x05;  x31; x32; x33; x00 ]%byte).
  destruct (relief_pixels_attenuated relief_view (relief_projection 90)
              (relief_globe false) data (Canvas.make 4 2 true []))
    as [(outImg & Hcanvas & Hatt) _];
    [reflexivity | reflexivity | reflexivity | reflexivity
     | vm_compute; reflexivity |].
  exists outImg, (Canvas.make 4 2 true []).
  split; [reflexivity | split; [exact Hcanvas |]].
  apply (Hatt 0 0 2 2 0 0 (Fin (-1 # 45)) (Fin (1 # 90)) x01 x02 x03 xff)%byte;
    try reflexivity; cbn; lia.
Defined.

End RenderOnChart.

(** ** Printing and reading digits *)

Section DigitFacts.

Import Digits.
Local Open Scope N_scope.
Local Open Scope string_scope.























End DigitFacts.

(** ** Splitting and trimming plain strings *)

Section PlainStrings.

Local Open Scope string_scope.








End PlainStrings.

(** ** Reading back what was printed *)

Section Parse.

Import Digits.
Local Open Scope string_scope.









End Parse.

(** ** Numbers through their strings *)

Section NumberStrings.

Import Digits.
Local Open Scope string_scope.








End NumberStrings.

(** ** Rounding to hundredths *)

Section Rounding.

Local Open Scope Q_scope.

Lemma hundredths_Q (z : Z) : z # 100 == inject_Z z * (1 # 100).
Proof. unfold Qeq, Qmult, inject_Z. simpl. lia. Qed.



End Rounding.

(** ** Integers through their strings *)

Section Integers.

Import Digits.
Local Open Scope string_scope.





End Integers.

(** ** Scaling by powers of ten *)

Section PowersOfTen.




End PowersOfTen.

(** ** Exponent notation *)

Section ExponentNotation.

Import Digits.
Local Open Scope string_scope.




End ExponentNotation.

Section BigIntegers.

Import Digits.
Local Open Scope string_scope.






End BigIntegers.

Section AllIntegers.

Import Digits.
Local Open Scope string_scope.




End AllIntegers.

(** ** The orientation round trip *)

Section RoundTrip.

Context `{D3}.

Import Digits.







End RoundTrip.

Section RoundTripOnChart.

#[local] Existing Instance chart_d3.


End RoundTripOnChart.

(** * Properties of the rest of the module *)

Local Open Scope list_scope.

(** ** The rectangle of the bounds *)

Section BoundsRectangle.

(** The lower edge is at or before every pixel from zero on that the bound
    is at or before. *)
Lemma lower_edge_covers (a : number) (c : Z) :
  0 ≤ c → (a <=? zn c)%num = true →
  (Num.max (Num.floor a) (zn 0) <=? zn c)%num = true.
Proof.
  intros Hc Ha.
  assert (Hc' : (inject_Z 0 <= inject_Z c)%Q) by (rewrite <- Zle_Qle; lia).
  destruct a as [| |q|]; unfold zn in *; simpl in *; try discriminate.
  - q_props. lra.
  - pose proof (Qfloor_le q) as F.
    destruct (Qle_bool (inject_Z (Qfloor q)) _) eqn:E; simpl; q_props; lra.
Qed.

(** The upper edge is at or after every pixel of the view that the bound is
    at or after. *)
Lemma upper_edge_covers (a : number) (w c : Z) :
  c < w → (zn c <=? a)%num = true →
  (zn c <=? Num.min (Num.ceil a) (zn w - zn 1))%num = true.
Proof.
  intros Hc Ha.
  assert (Hc' : (inject_Z c <= inject_Z w - 1)%Q).
  { change 1%Q with (inject_Z 1). unfold Qminus. rewrite <- inject_Z_opp, <- inject_Z_plus.
    rewrite <- Zle_Qle. lia. }
  destruct a as [| |q|]; unfold zn in *; simpl in *; try discriminate.
  - pose proof (Qle_ceiling q) as C.
    destruct (Qle_bool (inject_Z (Qceiling q)) _) eqn:E; simpl; q_props; lra.
  - q_props. lra.
Qed.

(** X1.  The rectangle of [clampedBounds] is cut to the view and rounded
    outwards, never inwards: every pixel of the view that lies within the
    bounds (after [ensureNumber]) lies within the rectangle. *)
Theorem clampedBounds_covers_pixels
    (b : (number * number) * (number * number)) (v : View.t) (cx cy : Z) :
  let r := clampedBounds b v in
  let x0 := ensureNumber b.1.1 (zn 0) in
  let y0 := ensureNumber b.1.2 (zn 0) in
  let x1 := ensureNumber b.2.1 (zn (View.width v)) in
  let y1 := ensureNumber b.2.2 (zn (View.height v)) in
  0 ≤ cx < View.width v → 0 ≤ cy < View.height v →
  (x0 <=? zn cx)%num = true → (zn cx <=? x1)%num = true →
  (y0 <=? zn cy)%num = true → (zn cy <=? y1)%num = true →
  (Rect.x r <=? zn cx)%num = true ∧ (zn cx <=? Rect.xMax r)%num = true
  ∧ (Rect.y r <=? zn cy)%num = true ∧ (zn cy <=? Rect.yMax r)%num = true.
Proof.
  cbn zeta. intros Hx Hy X0 X1 Y0 Y1. destruct b as [[bx0 by0] [bx1 by1]].
  unfold clampedBounds; cbn [Rect.x Rect.y Rect.xMax Rect.yMax fst snd] in *.
  repeat split.
  - apply lower_edge_covers; [lia | exact X0].
  - apply upper_edge_covers; [lia | exact X1].
  - apply lower_edge_covers; [lia | exact Y0].
  - apply upper_edge_covers; [lia | exact Y1].
Qed.

(** A bound that is missing or at or before zero gives the edge zero. *)
Lemma lower_edge_zero (a : number) :
  a = NaN ∨ (a <=? zn 0)%num = true →
  Num.max (Num.floor (ensureNumber a (zn 0))) (zn 0) = zn 0.
Proof.
  intros [-> | Ha]; [reflexivity |].
  destruct a as [| |q|]; unfold zn in *; simpl in *; try discriminate; try reflexivity.
  pose proof (Qfloor_le q) as F.
  destruct (Qle_bool (inject_Z (Qfloor q)) _) eqn:E; simpl; [reflexivity |].
  q_props. lra.
Qed.

Lemma inject_Z_pred (w : Z) : (inject_Z (w - 1) == inject_Z w - 1)%Q.
Proof.
  change 1%Q with (inject_Z 1). unfold Qminus.
  rewrite <- inject_Z_opp, <- inject_Z_plus. reflexivity.
Qed.

(** A bound that is missing or at or after the last column gives the last
    column. *)
Lemma upper_edge_last (a : number) (w : Z) :
  a = NaN ∨ (zn w - zn 1 <=? a)%num = true →
  Num.min (Num.ceil (ensureNumber a (zn w))) (zn w - zn 1) =n= zn (w - 1).
Proof.
  pose proof (inject_Z_pred w) as Hw.
  intros [-> | Ha].
  - unfold ensureNumber, zn. simpl. rewrite Qceiling_Z.
    destruct (Qle_bool _ _) eqn:E; simpl; q_props; lra.
  - destruct a as [| |q|]; unfold zn in *; simpl in *; try discriminate.
    + pose proof (Qle_ceiling q) as C.
      destruct (Qle_bool (inject_Z (Qceiling q)) _) eqn:E; simpl; q_props; lra.
    + q_props. lra.
Qed.

Lemma extent_whole (x xMax : number) (w : Z) :
  x = zn 0 → xMax =n= zn (w - 1) → (xMax - x + zn 1)%num =n= zn w.
Proof.
  intros -> H. destruct xMax as [| |q|]; unfold zn in *; simpl in *; try contradiction.
  q_props. rewrite H, inject_Z_pred. ring.
Qed.

(** X2.  Bounds that are missing ([NaN], which [ensureNumber] replaces) or
    that reach beyond the view on every side, infinite ones among them, give
    the whole view: from [(0, 0)] to [(width - 1, height - 1)], [width] by
    [height]. *)
Theorem clampedBounds_whole_view
    (b : (number * number) * (number * number)) (v : View.t) :
  let r := clampedBounds b v in
  let w := View.width v in
  let h := View.height v in
  (b.1.1 = NaN ∨ (b.1.1 <=? zn 0)%num = true) →
  (b.1.2 = NaN ∨ (b.1.2 <=? zn 0)%num = true) →
  (b.2.1 = NaN ∨ (zn w - zn 1 <=? b.2.1)%num = true) →
  (b.2.2 = NaN ∨ (zn h - zn 1 <=? b.2.2)%num = true) →
  Rect.x r = zn 0 ∧ Rect.y r = zn 0
  ∧ Rect.xMax r =n= zn (w - 1) ∧ Rect.yMax r =n= zn (h - 1)
  ∧ Rect.width r =n= zn w ∧ Rect.height r =n= zn h.
Proof.
  cbn zeta. destruct b as [[bx0 by0] [bx1 by1]]. cbn [fst snd].
  intros X0 Y0 X1 Y1.
  unfold clampedBounds; cbn [Rect.x Rect.y Rect.xMax Rect.yMax Rect.width Rect.height fst snd].
  pose proof (lower_edge_zero _ X0) as A. pose proof (lower_edge_zero _ Y0) as B.
  pose proof (upper_edge_last _ _ X1) as C. pose proof (upper_edge_last _ _ Y1) as D.
  repeat split; try assumption.
  - apply extent_whole; assumption.
  - apply extent_whole; assumption.
Qed.

End BoundsRectangle.

(** A sphere that d3 cannot bound on the left and that runs off the view
    on the right and below. *)
Lemma clampedBounds_whole_view_witness :
  let r := clampedBounds ((NaN, NInf), (PInf, zn 1000)) (View.make 800 400) in
  Rect.x r = zn 0 ∧ Rect.y r = zn 0
  ∧ Rect.xMax r =n= zn 799 ∧ Rect.yMax r =n= zn 399
  ∧ Rect.width r =n= zn 800 ∧ Rect.height r =n= zn 400.
Proof.
  cbn zeta.
  apply (clampedBounds_whole_view ((NaN, NInf), (PInf, zn 1000)) (View.make 800 400));
    [left | right | right | right]; reflexivity.
Defined.

(** The pixel (10, 3) of a view of 800 by 400 lies within bounds that start
    at fractions of a pixel. *)
Lemma clampedBounds_covers_pixels_witness :
  let r := clampedBounds ((Fin (19 # 2), Fin (5 # 2)), (Fin (21 # 2), Fin (7 # 2)))
             (View.make 800 400) in
  (Rect.x r <=? zn 10)%num = true ∧ (zn 10 <=? Rect.xMax r)%num = true
  ∧ (Rect.y r <=? zn 3)%num = true ∧ (zn 3 <=? Rect.yMax r)%num = true.
Proof.
  cbn zeta.
  apply (clampedBounds_covers_pixels
           ((Fin (19 # 2), Fin (5 # 2)), (Fin (21 # 2), Fin (7 # 2)))
           (View.make 800 400) 10 3); simpl; try lia; reflexivity.
Defined.

(** ** Building a globe *)

Section Building.

(** X3.  [newGlobe] needs a source that overrides [newProjection]: without
    one it throws the error of the standard method, and with one it throws
    what the override throws or returns the standard globe with the
    overrides of the source and the projection that the override returns
    for the view, the relief state being that of a fresh globe. *)
Theorem newGlobe_needs_newProjection (source : Source.t) (tz : Z) (view : View.t) :
  match Source.newProjection source with
  | None => newGlobe source tz view = Throw (Error "method must be overridden")
  | Some f =>
      match f tz view with
      | Throw e => newGlobe source tz view = Throw e
      | Ok p =>
          ∃ g, newGlobe source tz view = Ok g
               ∧ Globe.projection g = Some p
               ∧ Globe.newProjection g = f
               ∧ Globe.center g = default (Globe.center standardGlobe) (Source.center source)
               ∧ Globe.scaleExtent g = (zn 100, zn 10000)
               ∧ Globe.reliefCache g = ∅
               ∧ Globe.reliefCanvas g = None ∧ Globe.reliefFastCanvas g = None
               ∧ Globe.useReliefLo g = false
               ∧ Relief.loaded (Globe.reliefHi g) = false
               ∧ Relief.loaded (Globe.reliefLo g) = false
      end
  end.
Proof.
  destruct source as [[f |] c]; cbn [Source.newProjection Source.center];
    [| reflexivity].
  unfold newGlobe, extend.
  cbn [Source.newProjection Source.center default from_option Globe.newProjection].
  change (id f tz view) with (f tz view).
  destruct (f tz view) as [p | e]; [| reflexivity].
  eexists. split; [reflexivity |]. repeat split.
Qed.

Context `{D3}.

(** The names of the registry. *)
Lemma registry_names (name : string) :
  globes !! name = None
  ↔ name ∉ ["atlantis"; "azimuthal_equidistant"; "conic_equidistant"; "equirectangular";
            "orthographic"; "stereographic"; "waterman"; "winkel3"]%string.
Proof.
  unfold globes. rewrite <- not_elem_of_list_to_map. reflexivity.
Qed.

(** X4.  The registry has the eight names and no other, and each of its
    constructors returns, for every time zone and view, a globe that is
    functional: it has a projection, which is the one its [newProjection]
    returns for the view, the standard scale extent and the relief state of
    a fresh globe. *)
Theorem registry_globes_functional (name : string) :
  (globes !! name = None
   ↔ name ∉ ["atlantis"; "azimuthal_equidistant"; "conic_equidistant"; "equirectangular";
             "orthographic"; "stereographic"; "waterman"; "winkel3"]%string)
  ∧ ∀ ctor tz view,
      globes !! name = Some ctor →
      ∃ g p, ctor tz view = Ok g
             ∧ Globe.projection g = Some p
             ∧ Globe.newProjection g tz view = Ok p
             ∧ Globe.scaleExtent g = (zn 100, zn 10000)
             ∧ Globe.reliefCache g = ∅
             ∧ Globe.reliefCanvas g = None ∧ Globe.reliefFastCanvas g = None
             ∧ Globe.useReliefLo g = false.
Proof.
  split; [apply registry_names |].
  intros ctor tz view Hl. apply registry_lookup in Hl. unfold registry in Hl.
  repeat (apply elem_of_cons in Hl as [E | Hl]; [inversion E; subst; clear E |]).
  all: try (inversion Hl).
  all: eexists _, _; split; [reflexivity |]; repeat split.
Qed.

End Building.

(** ** Setting an orientation again *)

Section OrientationAgain.

Context `{D3}.

(** X5.  The setter is absolute: when [orientation(o, view)] returns,
    calling it again with the same string and view changes nothing more. *)
Theorem orientation_set_idempotent (o : string) (tz : Z) (view : View.t) (g g' : Globe.t) :
  orientation_set o tz view g = Ok g' →
  orientation_set o tz view g' = Ok g'.
Proof.
  intros Hs. apply orientation_set_Ok in Hs as (p & r & s & Hp & Hr & Hsc & ->).
  destruct g as [hi lo useLo fs fc rc cache proj np cen ext].
  cbn [Globe.projection Globe.newProjection Globe.scaleExtent Globe.center] in *.
  subst proj. unfold orientation_set, fit in *.
  cbn [Globe.projection Globe.set_projection Globe.newProjection Globe.scaleExtent
       Globe.center deref mbind result_bind] in *.
  destruct (Num.isFinite (ToNumber.of_part (split "," o) 0)
            && Num.isFinite (ToNumber.of_part (split "," o) 1)).
  - injection Hr as <-. rewrite Hsc. destruct p. reflexivity.
  - destruct (np tz view) as [dp |]; [| discriminate Hr].
    cbn [fmap result_fmap mbind result_bind] in Hr, Hsc |- *. injection Hr as <-.
    rewrite Hsc.
    unfold Projection.rotate_array. destruct dp as [k [[a b] c] sc tr pr ca ce].
    destruct p. reflexivity.
Qed.

End OrientationAgain.

Section OrientationAgainOnChart.

#[local] Existing Instance chart_d3.

Lemma orientation_set_idempotent_witness :
  ∃ g', orientation_set "-73.99,40.73,500" 0 chart_view chart_globe = Ok g'
        ∧ orientation_set "-73.99,40.73,500" 0 chart_view g' = Ok g'.
Proof.
  set (p := Projection.make Equirectangular (Fin (7399 # 100), Fin (-4073 # 100), Fin 0)
              (Fin 500) (Fin 400, Fin 200) (Fin (1 # 10)) None None).
  set (g' := Globe.set_projection (Some p) chart_globe).
  assert (E : orientation_set "-73.99,40.73,500" 0 chart_view chart_globe = Ok g')
    by reflexivity.
  exists g'. split; [exact E |].
  exact (orientation_set_idempotent _ 0 chart_view chart_globe g' E).
Defined.

End OrientationAgainOnChart.

(** ** Orientation strings that the getter prints *)

Section Canonical.

Import Digits.

Lemma floor_integer_half (z : Z) : Qfloor (inject_Z z + (1 # 2)) = z.
Proof.
  unfold Qfloor, Qplus, inject_Z. cbn [Qnum Qden].
  symmetry. apply (Z.div_unique _ _ z 1); lia.
Qed.


Lemma Qle_bool_comp (a a' b b' : Q) :
  (a == a')%Q → (b == b')%Q → Qle_bool a b = Qle_bool a' b'.
Proof.
  intros Ha Hb.
  destruct (Qle_bool a b) eqn:E, (Qle_bool a' b') eqn:E'; try reflexivity; q_props.
  - rewrite Ha, Hb in E. lra.
  - rewrite <- Ha, <- Hb in E'. lra.
Qed.

(** [toFixed(2)] of a number of hundredths prints that number. *)
Lemma toFixed2_hundredths (q : Q) (z : Z) :
  (q == z # 100)%Q → Z.abs z < 10 ^ 23 →
  ToString.toFixed2 (Fin q) = hundredths_string z.
Proof.
  intros Hq Hz. unfold ToString.toFixed2, hundredths_string.
  assert (Ha : (Qabs q == inject_Z (Z.abs z) * (1 # 100))%Q).
  { rewrite Hq. unfold Qabs. rewrite hundredths_Q. reflexivity. }
  assert (Hbig : Qle_bool (inject_Z (10 ^ 21)) (Qabs q) = false).
  { destruct (Qle_bool _ _) eqn:E; [| reflexivity]. q_props. rewrite Ha in E.
    assert (Hlt : (inject_Z (Z.abs z) < inject_Z (10 ^ 23))%Q)
      by (rewrite <- Zlt_Qlt; exact Hz).
    assert (Hp : (inject_Z (10 ^ 23) == inject_Z (10 ^ 21) * 100)%Q) by reflexivity.
    lra. }
  rewrite Hbig.
  assert (Hf : Qfloor (Qabs q * 100 + (1 # 2)) = Z.abs z).
  { rewrite <- (floor_integer_half (Z.abs z)). apply Qfloor_comp. rewrite Ha. ring. }
  rewrite Hf.
  assert (Hs : Qle_bool 0 q = (0 <=? z)).
  { destruct (Z.leb_spec 0 z) as [L | L].
    - apply Qle_bool_iff. rewrite Hq. unfold Qle. simpl. lia.
    - destruct (Qle_bool 0 q) eqn:E; [| reflexivity]. q_props. rewrite Hq in E.
      unfold Qle in E. simpl in E. lia. }
  rewrite Hs. reflexivity.
Qed.




Context `{D3}.


End Canonical.

Section CanonicalOnChart.

#[local] Existing Instance chart_d3.


End CanonicalOnChart.

(** ** Dragging *)

Section Dragging.

Local Open Scope Q_scope.






(** X8.  A session started at the scale zero has an infinite sensitivity:
    whatever the finite rotation at its start and wherever the mouse
    moves, [move] leaves no finite longitude or latitude. *)
Theorem move_at_scale_zero (g : Globe.t) (p : Projection.t)
    (r0 r1 sx sy mx my s : Q) (r2 scale : number) :
  Globe.projection g = Some p →
  Projection.rotate p = (Fin r0, Fin r1, r2) →
  s == 0 →
  ∃ m g',
    manipulator (Fin sx, Fin sy) (Fin s) g = Ok (m, g')
    ∧ Manipulator.sensitivity m = PInf
    ∧ ∀ q,
        let q' := Manipulator.move m (Some (Fin mx, Fin my)) scale q in
        Num.isFinite (Projection.rotate q').1.1 = false
        ∧ Num.isFinite (Projection.rotate q').1.2 = false.
Proof.
  intros Hp Hrot Hs. eexists _, _.
  split; [apply manipulator_ok, Hp |].
  assert (Hd : (zn 60 / Fin s)%num = PInf).
  { unfold Num.div, zn. pose proof (sgn_spec s) as S.
    destruct (Num.sgn s); [reflexivity | lra | lra]. }
  split; [exact Hd |].
  intros q. cbn zeta. rewrite Hrot.
  unfold Manipulator.move. cbn [Manipulator.startMouse Manipulator.sensitivity
    Manipulator.rotation fst snd].
  rewrite Hd.
  unfold Projection.set_scale, Projection.set_rotate.
  cbn [Projection.rotate Projection.scale fst snd lookup list_lookup default
       length decide_rel].
  split; simpl; destruct (Num.sgn _); reflexivity.
Qed.

End Dragging.


Lemma move_at_scale_zero_witness :
  ∃ m g',
    manipulator (Fin 10, Fin 20) (Fin 0) chart_globe = Ok (m, g')
    ∧ Manipulator.sensitivity m = PInf
    ∧ ∀ q,
        let q' := Manipulator.move m (Some (Fin 10, Fin 20)) (zn 300) q in
        Num.isFinite (Projection.rotate q').1.1 = false
        ∧ Num.isFinite (Projection.rotate q').1.2 = false.
Proof.
  exact (move_at_scale_zero chart_globe
           (Projection.make Equirectangular (Fin 0, Fin 0, Fin 0) (zn 150)
              (zn 480, zn 250) (Fin (1 # 10)) None None)
           0 0 10 20 10 20 0 (Fin 0) (zn 300) eq_refl eq_refl
           ltac:(reflexivity)).
Defined.

(** ** Sessions that overlap *)

Section Overlap.

(** X9.  A session started while another one is active records the raised
    precision as its original.  Ending the two in the order of their
    construction leaves the precision at ten times the original one; ending
    the later one first restores it. *)
Theorem overlapping_sessions (g : Globe.t) (p : Projection.t)
    (mouse1 mouse2 : number * number) (scale1 scale2 : number) :
  Globe.projection g = Some p →
  ∃ m1 g1 m2 g2,
    manipulator mouse1 scale1 g = Ok (m1, g1)
    ∧ manipulator mouse2 scale2 g1 = Ok (m2, g2)
    ∧ Manipulator.original m2 = (Projection.precision p * zn 10)%num
    ∧ ∀ q,
        Projection.precision (Manipulator.end_ m2 (Manipulator.end_ m1 q))
        = (Projection.precision p * zn 10)%num
        ∧ Projection.precision (Manipulator.end_ m1 (Manipulator.end_ m2 q))
          = Projection.precision p.
Proof.
  intros Hp. eexists _, _, _, _.
  split; [apply manipulator_ok, Hp |].
  split; [apply manipulator_ok; reflexivity |].
  repeat split.
Qed.

End Overlap.

Lemma overlapping_sessions_witness :
  ∃ m1 g1 m2 g2,
    manipulator (zn 10, zn 20) (zn 300) chart_globe = Ok (m1, g1)
    ∧ manipulator (zn 30, zn 40) (zn 300) g1 = Ok (m2, g2)
    ∧ Manipulator.original m2 = (Fin (1 # 10) * zn 10)%num
    ∧ ∀ q,
        Projection.precision (Manipulator.end_ m2 (Manipulator.end_ m1 q))
        = (Fin (1 # 10) * zn 10)%num
        ∧ Projection.precision (Manipulator.end_ m1 (Manipulator.end_ m2 q))
          = Fin (1 # 10).
Proof.
  exact (overlapping_sessions chart_globe
           (Projection.make Equirectangular (Fin 0, Fin 0, Fin 0) (zn 150)
              (zn 480, zn 250) (Fin (1 # 10)) None None)
           (zn 10, zn 20) (zn 30, zn 40) (zn 300) (zn 300) eq_refl).
Defined.

(** ** Loops that return *)

Section LoopsReturn.

Context {A S : Type}.

(** A loop whose steps all return, keeping a property of the state,
    returns, keeping it. *)
Lemma for_each_returns (I : S → Prop) (l : list A) (body : A → S → result S) :
  (∀ a s, a ∈ l → I s → ∃ s', body a s = Ok s' ∧ I s') →
  ∀ s, I s → ∃ s', for_each l body s = Ok s' ∧ I s'.
Proof.
  induction l as [| a l IH]; intros Hbody s Hs.
  - exists s. split; [reflexivity | exact Hs].
  - destruct (Hbody a s ltac:(left) Hs) as (s1 & Ha & Hs1).
    cbn [for_each mbind result_bind]. rewrite Ha.
    apply IH; [| exact Hs1].
    intros b t Hb. apply Hbody. right. exact Hb.
Qed.

End LoopsReturn.

(** ** Renders that return *)

Section RendersReturn.

Context `{D3}.

Lemma set_length (d : list byte) (i : Z) (v : number) :
  length (Uint8Clamped.set d i v) = length d.
Proof. unfold Uint8Clamped.set. destruct (i <? 0); [reflexivity | apply length_insert]. Qed.

(** With the image of the tier in place the body of the loops returns. *)
Lemma reliefPixel_returns (relief : Relief.t) (data : list byte) (p : Projection.t)
    (pt : number * number) (oidx : Z) (out : list byte) :
  Relief.img relief ≠ None →
  ∃ out', reliefPixel relief data p pt oidx out = Ok out' ∧ length out' = length out.
Proof.
  intros Himg. unfold reliefPixel.
  destruct (d3_invert p pt) as [[lon lat] |]; [| eauto].
  destruct (Relief.img relief) as [img |]; [| congruence].
  cbn [deref mbind result_bind]. destruct (_ || _); [eauto |].
  eexists. split; [reflexivity |]. rewrite !set_length. reflexivity.
Qed.

Lemma sweep_returns (relief : Relief.t) (data : list byte) (p : Projection.t)
    (w h : Z) (at_ : Z → Z → number * number) (out : list byte) :
  Relief.img relief ≠ None →
  ∃ out', sweep relief data p w h at_ out = Ok out' ∧ length out' = length out.
Proof.
  intros Himg. unfold sweep.
  apply (for_each_returns (fun s => length s = length out)); [| reflexivity].
  intros y s _ Hs.
  apply (for_each_returns (fun s => length s = length out)); [| exact Hs].
  intros x t _ Ht.
  destruct (reliefPixel_returns relief data p (at_ x y) ((y * w + x) * 4) t Himg)
    as (t' & -> & Hl).
  exists t'. split; [reflexivity | congruence].
Qed.

(** The composite of an output that is not empty returns an image of the
    size asked for. *)
Lemma composite_returns (relief : Relief.t) (data : list byte) (p : Projection.t)
    (w h : Z) (at_ : Z → Z → number * number) :
  Relief.img relief ≠ None → 0 < w → 0 < h →
  ∃ outImg, composite relief data p w h at_ = Ok outImg
            ∧ ImageData.width outImg = w ∧ ImageData.height outImg = h
            ∧ Z.of_nat (length (ImageData.data outImg)) = 4 * w * h.
Proof.
  intros Himg Hw Hh. unfold composite, createImageData.
  destruct (Z.eqb_spec w 0); [lia |]. destruct (Z.eqb_spec h 0); [lia |].
  cbn [orb mbind result_bind ImageData.data ImageData.width ImageData.height].
  destruct (sweep_returns relief data p w h at_
              (replicate (Z.to_nat (4 * Z.abs w * Z.abs h)) x00%byte) Himg)
    as (out & -> & Hl).
  eexists. split; [reflexivity |].
  cbn [ImageData.data ImageData.width ImageData.height].
  rewrite Hl, length_replicate, !Z.abs_eq by lia. repeat split. nia.
Qed.

(** The composite of an empty output throws. *)
Lemma composite_empty (relief : Relief.t) (data : list byte) (p : Projection.t)
    (w h : Z) (at_ : Z → Z → number * number) :
  w = 0 ∨ h = 0 → composite relief data p w h at_ = Throw IndexSizeError.
Proof.
  intros Hz. unfold composite, createImageData.
  destruct (Z.eqb_spec w 0); [reflexivity |]. destruct (Z.eqb_spec h 0); [reflexivity |].
  lia.
Qed.

Lemma cache_hit_Some (cached : option ImageData.t) (view : View.t) (img : ImageData.t) :
  cache_hit cached view = Some img
  ↔ cached = Some img ∧ ImageData.width img = View.width view
    ∧ ImageData.height img = View.height view.
Proof.
  unfold cache_hit. destruct cached as [c |].
  - destruct (Z.eqb_spec (ImageData.width c) (View.width view));
      destruct (Z.eqb_spec (ImageData.height c) (View.height view)); cbn [andb];
      split; try discriminate.
    + intros [= <-]. auto.
    + intros ([= <-] & _ & _). reflexivity.
    + intros ([= <-] & _ & ?). contradiction.
    + intros ([= <-] & ? & _). contradiction.
    + intros ([= <-] & ? & _). contradiction.
  - split; [discriminate | intros ([=] & _)].
Qed.

(** X10.  A full-resolution render of a view that is not empty returns,
    once the tier is loaded with its image and the relief canvas is there:
    nothing in the loops throws.  For a view of no width or no height, and
    no buffer cached for the state, it throws the [IndexSizeError] of
    [createImageData] after it has cleared the canvas, and leaves the cache
    as it is. *)
Theorem fullres_render_returns (view : View.t) (p : Projection.t) (g : Globe.t)
    (data : list byte) (ctx : Canvas.t) :
  Globe.useReliefLo g = false →
  Relief.loaded (Globe.reliefHi g) = true →
  Relief.data (Globe.reliefHi g) = Some data →
  Relief.img (Globe.reliefHi g) ≠ None →
  Globe.reliefCanvas g = Some ctx →
  let r := drawRelief view p g in
  (0 < View.width view → 0 < View.height view → r.2 = Ok ())
  ∧ (View.width view = 0 ∨ View.height view = 0 →
     Globe.reliefCache g !! getReliefCacheKey p view = None →
     r.2 = Throw IndexSizeError
     ∧ Globe.reliefCache r.1 = Globe.reliefCache g
     ∧ Globe.reliefCanvas r.1
       = Some (Canvas.draw (ClearRect 0 0 (View.width view) (View.height view)) ctx)).
Proof.
  intros Hlo Hloaded Hdata Himg Hctx.
  destruct g as [hi lo useLo fs fc rc cache proj np cen ext].
  cbn [Globe.useReliefLo Globe.reliefHi Globe.reliefCanvas Globe.reliefCache] in *.
  subst useLo rc. cbn zeta. unfold drawRelief.
  cbn [Globe.useReliefLo Globe.reliefLo Globe.reliefHi
    Globe.reliefCanvas Globe.reliefFastCanvas Globe.reliefCache
    Globe.set_reliefCanvas Globe.set_reliefFastCanvas Globe.set_reliefCache].
  rewrite Hloaded, Hdata. split.
  - intros Hw Hh. destruct (cache_hit _ _); [reflexivity |].
    destruct (composite_returns hi data p _ _ at_full Himg Hw Hh) as (outImg & -> & _).
    reflexivity.
  - intros Hz Hmiss. rewrite Hmiss. cbn [cache_hit].
    rewrite (composite_empty hi data p _ _ at_full Hz). repeat split.
Qed.

(** X11.  A full-resolution render that returns makes the next render of
    the same view and projection a cache hit: the second call puts on the
    cleared canvas the very buffer that the first call put there, does not
    composite and leaves the cache as it is. *)
Theorem repeated_render_is_cached (view : View.t) (p : Projection.t) (g : Globe.t)
    (data : list byte) :
  Globe.useReliefLo g = false →
  Relief.loaded (Globe.reliefHi g) = true →
  Relief.data (Globe.reliefHi g) = Some data →
  0 ≤ View.width view → 0 ≤ View.height view →
  let r1 := drawRelief view p g in
  let r2 := drawRelief view p r1.1 in
  r1.2 = Ok () →
  ∃ img ctx ops,
    Globe.reliefCache r1.1 !! getReliefCacheKey p view = Some img
    ∧ Globe.reliefCanvas r1.1 = Some ctx
    ∧ Canvas.drawn ctx = ops ++ [PutImageData img 0 0]
    ∧ r2.2 = Ok ()
    ∧ Globe.reliefCache r2.1 = Globe.reliefCache r1.1
    ∧ Globe.reliefCanvas r2.1
      = Some (Canvas.draw (PutImageData img 0 0)
                (Canvas.draw (ClearRect 0 0 (View.width view) (View.height view)) ctx)).
Proof.
  intros Hlo Hloaded Hdata Hw Hh.
  destruct g as [hi lo useLo fs fc rc cache proj np cen ext].
  cbn [Globe.useReliefLo Globe.reliefHi] in *. subst useLo.
  cbn zeta. destruct (drawRelief view p _) as [g1 res] eqn:E1.
  cbn [fst snd]. intros ->. revert E1. unfold drawRelief at 1.
  cbn [Globe.useReliefLo Globe.reliefLo Globe.reliefHi
    Globe.reliefCanvas Globe.reliefFastCanvas Globe.reliefCache
    Globe.set_reliefCanvas Globe.set_reliefFastCanvas Globe.set_reliefCache].
  rewrite Hloaded, Hdata.
  destruct rc as [ctx |]; [| intros [=]].
  destruct (cache_hit (cache !! _) view) as [cached |] eqn:Hhit.
  - intros [= <-]. pose proof Hhit as Hhit'.
    apply cache_hit_Some in Hhit' as (Hl & _ & _).
    eexists cached, _, _.
    split; [exact Hl |]. split; [reflexivity |].
    split; [reflexivity |].
    unfold drawRelief.
    cbn [Globe.useReliefLo Globe.reliefLo Globe.reliefHi
      Globe.reliefCanvas Globe.reliefFastCanvas Globe.reliefCache
      Globe.set_reliefCanvas Globe.set_reliefFastCanvas Globe.set_reliefCache].
    rewrite Hloaded, Hdata, Hhit. repeat split.
  - destruct (composite hi data p _ _ at_full) as [outImg |] eqn:Hc; [| intros [=]].
    intros [= <-].
    assert (Hdim : ImageData.width outImg = View.width view
                   ∧ ImageData.height outImg = View.height view).
    { unfold composite, createImageData in Hc.
      destruct ((View.width view =? 0) || (View.height view =? 0)); [discriminate Hc |].
      cbn [mbind result_bind ImageData.data ImageData.width ImageData.height] in Hc.
      destruct (sweep _ _ _ _ _ _ _); [| discriminate Hc].
      injection Hc as <-. cbn [ImageData.width ImageData.height].
      rewrite !Z.abs_eq by lia. split; reflexivity. }
    eexists outImg, _, _.
    split; [apply lookup_insert_eq |]. split; [reflexivity |].
    split; [reflexivity |].
    unfold drawRelief.
    cbn [Globe.useReliefLo Globe.reliefLo Globe.reliefHi
      Globe.reliefCanvas Globe.reliefFastCanvas Globe.reliefCache
      Globe.set_reliefCanvas Globe.set_reliefFastCanvas Globe.set_reliefCache].
    rewrite Hloaded, Hdata, lookup_insert_eq.
    assert (Hhit' : cache_hit (Some outImg) view = Some outImg)
      by (apply cache_hit_Some; tauto).
    rewrite Hhit'. repeat split.
Qed.

(** X12.  After [clearReliefCache] a full-resolution render that returns
    has composited anew: the buffer it put on the cleared canvas is the
    composite of the view, and it is the one entry of the cache, under the
    key of the call. *)
Theorem render_after_clear (view : View.t) (p : Projection.t) (g : Globe.t)
    (data : list byte) (ctx : Canvas.t) :
  Globe.useReliefLo g = false →
  Relief.loaded (Globe.reliefHi g) = true →
  Relief.data (Globe.reliefHi g) = Some data →
  Globe.reliefCanvas g = Some ctx →
  let r := drawRelief view p (clearReliefCache g) in
  r.2 = Ok () →
  ∃ outImg,
    composite (Globe.reliefHi g) data p (View.width view) (View.height view) at_full
    = Ok outImg
    ∧ Globe.reliefCache r.1 = {[ getReliefCacheKey p view := outImg ]}
    ∧ Globe.reliefCanvas r.1
      = Some (Canvas.draw (PutImageData outImg 0 0)
                (Canvas.draw (ClearRect 0 0 (View.width view) (View.height view)) ctx)).
Proof.
  intros Hlo Hloaded Hdata Hctx.
  destruct g as [hi lo useLo fs fc rc cache proj np cen ext].
  cbn [Globe.useReliefLo Globe.reliefHi Globe.reliefCanvas] in *. subst useLo rc.
  cbn zeta. unfold drawRelief, clearReliefCache.
  cbn [Globe.useReliefLo Globe.reliefLo Globe.reliefHi
    Globe.reliefCanvas Globe.reliefFastCanvas Globe.reliefCache
    Globe.set_reliefCanvas Globe.set_reliefFastCanvas Globe.set_reliefCache].
  rewrite Hloaded, Hdata, lookup_empty. cbn [cache_hit].
  destruct (composite hi data p _ _ at_full) as [outImg |]; [| intros [=]].
  intros _. exists outImg. repeat split.
Qed.

End RendersReturn.

(** ** The size of the fast canvas *)

Section FastCanvas.

Context `{D3}.

(** A quarter of a size, rounded. *)
Lemma quarter_size (w : Z) :
  canvas_size (Num.round (zn w * Fin (1 # 4))%num) = Z.max 0 ((w + 2) / 4).
Proof.
  unfold zn. cbn [Num.mul Num.round canvas_size zn]. rewrite Qfloor_Z. f_equal.
  assert (E : (Qred (inject_Z w * (1 # 4)) + (1 # 2) == (w + 2) # 4)%Q).
  { rewrite Qred_correct. unfold Qeq, Qplus, Qmult, inject_Z. cbn [Qnum Qden]. lia. }
  rewrite (Qfloor_comp _ _ E). reflexivity.
Qed.

(** X13.  After [initReliefCanvas(view)] the fast canvas has a quarter of
    the width and of the height of the view, rounded, so a low-resolution
    render needs a view of at least two by two pixels: there it returns,
    the low tier being loaded with its image, and for a smaller view the
    fast canvas is empty and [createImageData] throws an
    [IndexSizeError]. *)
Theorem lowres_render_needs_two_pixels (view : View.t) (p : Projection.t) (g : Globe.t)
    (data : list byte) :
  Globe.useReliefLo g = true →
  Relief.loaded (Globe.reliefLo g) = true →
  Relief.data (Globe.reliefLo g) = Some data →
  Relief.img (Globe.reliefLo g) ≠ None →
  Globe.reliefFastScale g = Fin (1 # 4) →
  0 ≤ View.width view → 0 ≤ View.height view →
  let g' := initReliefCanvas view g in
  let r := drawRelief view p g' in
  (Canvas.width <$> Globe.reliefFastCanvas g') = Some ((View.width view + 2) / 4)
  ∧ (Canvas.height <$> Globe.reliefFastCanvas g') = Some ((View.height view + 2) / 4)
  ∧ (2 ≤ View.width view → 2 ≤ View.height view → r.2 = Ok ())
  ∧ (View.width view < 2 ∨ View.height view < 2 → r.2 = Throw IndexSizeError).
Proof.
  intros Hlo Hloaded Hdata Himg Hfs Hw Hh.
  destruct g as [hi lo useLo fs fc rc cache proj np cen ext].
  cbn [Globe.useReliefLo Globe.reliefLo Globe.reliefFastScale] in *. subst useLo fs.
  cbn zeta. unfold initReliefCanvas, drawRelief.
  cbn [Globe.useReliefLo Globe.reliefLo Globe.reliefHi Globe.reliefFastScale
    Globe.reliefCanvas Globe.reliefFastCanvas Globe.reliefCache
    Globe.set_reliefCanvas Globe.set_reliefFastCanvas Globe.set_reliefCache
    Canvas.resize Canvas.width Canvas.height fmap option_fmap option_map].
  rewrite !quarter_size, Hloaded, Hdata.
  assert (0 ≤ (View.width view + 2) / 4) by (apply Z.div_pos; lia).
  assert (0 ≤ (View.height view + 2) / 4) by (apply Z.div_pos; lia).
  rewrite !Z.max_r by assumption.
  split; [reflexivity | split; [reflexivity | split]].
  - intros Hw2 Hh2.
    assert (0 < (View.width view + 2) / 4) by (apply Z.div_str_pos; lia).
    assert (0 < (View.height view + 2) / 4) by (apply Z.div_str_pos; lia).
    destruct (composite_returns lo data p ((View.width view + 2) / 4)
                ((View.height view + 2) / 4)
                (at_fast ((View.width view + 2) / 4) ((View.height view + 2) / 4) view)
                Himg) as (outImg & -> & _);
      [assumption | assumption | reflexivity].
  - intros Hsmall. rewrite composite_empty; [reflexivity |].
    destruct Hsmall; [left | right]; apply Z.div_small; lia.
Qed.

End FastCanvas.

(** ** The points that the loops look up *)

Section Lookups.

Local Open Scope Q_scope.

(** The column of the raster for a longitude. *)
Lemma raster_column_floor (iw : Z) (lon : Q) :
  raster_column iw (Fin lon)
  = zn (Qfloor (Qred (Qred (Qred (lon + inject_Z 180) / inject_Z 360)
                      * Qred (inject_Z iw + Qred (- inject_Z 1))) + (1 # 2))).
Proof. reflexivity. Qed.

Lemma raster_row_floor (ih : Z) (lat : Q) :
  raster_row ih (Fin lat)
  = zn (Qfloor (Qred (Qred (Qred (inject_Z 90 + Qred (- lat)) / inject_Z 180)
                      * Qred (inject_Z ih + Qred (- inject_Z 1))) + (1 # 2))).
Proof. reflexivity. Qed.

(** The nearest integer to a fraction [t] of the way from zero to
    [n - 1] is an index below [n]. *)
Lemma round_fraction (t : Q) (n : Z) :
  0 <= t <= 1 → (0 < n)%Z →
  (0 ≤ Qfloor (t * (inject_Z n - 1) + (1 # 2)) < n)%Z.
Proof.
  intros Ht Hn.
  assert (Hn' : 1 <= inject_Z n).
  { change 1 with (inject_Z 1). rewrite <- Zle_Qle. lia. }
  assert (Hp : 0 <= t * (inject_Z n - 1)) by (apply Qmult_le_0_compat; lra).
  assert (Hq : t * (inject_Z n - 1) <= inject_Z n - 1).
  { rewrite <- (Qmult_1_l (inject_Z n - 1)) at 2.
    apply Qmult_le_compat_r; lra. }
  split.
  - apply Qfloor_resp_le in Hp. change (Qfloor 0) with 0%Z in Hp.
    assert (L : t * (inject_Z n - 1) <= t * (inject_Z n - 1) + (1 # 2)) by lra.
    apply Qfloor_resp_le in L. lia.
  - assert (L : t * (inject_Z n - 1) + (1 # 2) < inject_Z n) by lra.
    pose proof (Qfloor_le (t * (inject_Z n - 1) + (1 # 2))) as F.
    rewrite Zlt_Qlt. lra.
Qed.

(** X14.  The lookup of a longitude from -180 to 180 and a latitude from
    -90 to 90 falls on a pixel of the raster, whatever its size: the
    column and the row that the loops compute are within it, so the check
    of the range skips no point of the sphere.  The longitude -180 is the
    first column and 180 the last one, the latitude 90 the first row and
    -90 the last one. *)
Theorem raster_lookup_in_range (iw ih : Z) (lon lat : Q) :
  (0 < iw)%Z → (0 < ih)%Z →
  - (180) <= lon <= 180 → - (90) <= lat <= 90 →
  ∃ i j : Z,
    raster_column iw (Fin lon) = zn i ∧ raster_row ih (Fin lat) = zn j
    ∧ (0 ≤ i < iw)%Z ∧ (0 ≤ j < ih)%Z
    ∧ (lon == - (180) → i = 0%Z) ∧ (lon == 180 → i = (iw - 1)%Z)
    ∧ (lat == 90 → j = 0%Z) ∧ (lat == - (90) → j = (ih - 1)%Z).
Proof.
  intros Hiw Hih Hlon Hlat.
  rewrite raster_column_floor, raster_row_floor. eexists _, _.
  split; [reflexivity |]. split; [reflexivity |].
  assert (Ec : Qred (Qred (Qred (lon + inject_Z 180) / inject_Z 360)
                     * Qred (inject_Z iw + Qred (- inject_Z 1))) + (1 # 2)
               == (lon + 180) / 360 * (inject_Z iw - 1) + (1 # 2)).
  { rewrite !Qred_correct. change (inject_Z 180) with 180. change (inject_Z 360) with 360.
    change (inject_Z 1) with 1. reflexivity. }
  assert (Er : Qred (Qred (Qred (inject_Z 90 + Qred (- lat)) / inject_Z 180)
                     * Qred (inject_Z ih + Qred (- inject_Z 1))) + (1 # 2)
               == (90 - lat) / 180 * (inject_Z ih - 1) + (1 # 2)).
  { rewrite !Qred_correct. change (inject_Z 180) with 180. change (inject_Z 90) with 90.
    change (inject_Z 1) with 1. reflexivity. }
  rewrite (Qfloor_comp _ _ Ec), (Qfloor_comp _ _ Er).
  assert (Tc : 0 <= (lon + 180) / 360 <= 1).
  { split; [apply Qle_shift_div_l | apply Qle_shift_div_r]; lra. }
  assert (Tr : 0 <= (90 - lat) / 180 <= 1).
  { split; [apply Qle_shift_div_l | apply Qle_shift_div_r]; lra. }
  split; [apply round_fraction; assumption |].
  split; [apply round_fraction; assumption |].
  repeat split.
  - intros E. apply Qfloor_comp with (y := 1 # 2). rewrite E. field.
  - intros E. rewrite <- (floor_integer_half (iw - 1)). apply Qfloor_comp.
    rewrite E, inject_Z_pred. field.
  - intros E. apply Qfloor_comp with (y := 1 # 2). rewrite E. field.
  - intros E. rewrite <- (floor_integer_half (ih - 1)). apply Qfloor_comp.
    rewrite E, inject_Z_pred. field.
Qed.

(** X15.  The points that the low-resolution loops look up lie in the
    view: the pixel [(x, y)] of a fast canvas of [fastW] by [fastH] pixels
    stands for the point [(x * width / fastW, y * height / fastH)], at or
    after the origin and before the width and the height. *)
Theorem fast_samples_in_view (fastW fastH : Z) (view : View.t) (x y : Z) :
  (0 ≤ x < fastW)%Z → (0 ≤ y < fastH)%Z →
  (0 < View.width view)%Z → (0 < View.height view)%Z →
  ∃ sx sy : Q,
    at_fast fastW fastH view x y = (Fin sx, Fin sy)
    ∧ sx == inject_Z x * inject_Z (View.width view) / inject_Z fastW
    ∧ sy == inject_Z y * inject_Z (View.height view) / inject_Z fastH
    ∧ 0 <= sx < inject_Z (View.width view)
    ∧ 0 <= sy < inject_Z (View.height view).
Proof.
  intros Hx Hy Hw Hh.
  assert (Q : ∀ a n m : Z, (0 ≤ a < n)%Z → (0 < m)%Z →
            ∃ s : Q, (zn a / zn n * zn m)%num = Fin s
                     ∧ s == inject_Z a * inject_Z m / inject_Z n
                     ∧ 0 <= s < inject_Z m).
  { intros a n m Ha Hm.
    assert (Hn : 0 < inject_Z n) by (change 0 with (inject_Z 0); rewrite <- Zlt_Qlt; lia).
    assert (Hm' : 0 < inject_Z m) by (change 0 with (inject_Z 0); rewrite <- Zlt_Qlt; lia).
    assert (Ha0 : 0 <= inject_Z a) by (change 0 with (inject_Z 0); rewrite <- Zle_Qle; lia).
    assert (Han : inject_Z a < inject_Z n) by (rewrite <- Zlt_Qlt; lia).
    unfold zn, Num.div. pose proof (sgn_spec (inject_Z n)) as S.
    destruct (Num.sgn (inject_Z n)); [lra | lra |].
    cbn [Num.mul]. eexists. split; [reflexivity |].
    rewrite !Qred_correct.
    assert (E : inject_Z a / inject_Z n * inject_Z m
                == inject_Z a * inject_Z m / inject_Z n) by (field; lra).
    split; [exact E |]. rewrite E. split.
    - apply Qle_shift_div_l; [exact Hn |]. rewrite Qmult_0_l.
      apply Qmult_le_0_compat; lra.
    - apply Qlt_shift_div_r; [exact Hn |].
      rewrite (Qmult_comm (inject_Z a)). apply Qmult_lt_l; assumption. }
  destruct (Q x fastW (View.width view) Hx Hw) as (sx & Ex & Hsx & Bx).
  destruct (Q y fastH (View.height view) Hy Hh) as (sy & Ey & Hsy & By).
  exists sx, sy. unfold at_fast. rewrite Ex, Ey. auto.
Qed.

End Lookups.

(** ** Pixels off the globe *)

Section OffGlobe.

Context `{D3}.

Variables (relief : Relief.t) (data : list byte) (p : Projection.t).
Variables (w h : Z) (at_ : Z → Z → number * number).

(** The pixel [(x, y)] of the output, whose point has no inverse
    projection. *)
Variables (x y : Z).
Hypothesis (Hx : 0 ≤ x < w) (Hy : 0 ≤ y < h).
Hypothesis (Hoff : d3_invert p (at_ x y) = None).

Let blank (s : list byte) : Prop :=
  Z.of_nat (length s) = 4 * w * h
  ∧ ∀ c : nat, (c < 4)%nat → s !! (Z.to_nat ((y * w + x) * 4) + c)%nat = Some x00%byte.

Lemma blank_pixel_step (x' y' : Z) (s s' : list byte) :
  0 ≤ x' < w → 0 ≤ y' →
  reliefPixel relief data p (at_ x' y') ((y' * w + x') * 4) s = Ok s' →
  blank s → blank s'.
Proof.
  intros Hx' Hy' Hrun [Hlen Hz].
  destruct (decide ((x', y') = (x, y))) as [[= -> ->] | Hne].
  - unfold reliefPixel in Hrun. rewrite Hoff in Hrun. injection Hrun as <-.
    split; assumption.
  - assert (Ho : 0 ≤ (y' * w + x') * 4) by nia.
    destruct (reliefPixel_frame _ _ _ _ _ _ _ Ho Hrun) as [Hl Hframe].
    split; [rewrite Hl; exact Hlen |].
    intros c Hc. rewrite Hframe; [apply Hz, Hc |].
    apply (other_pixel w h x y Hx Hy c Hc); assumption.
Qed.

Lemma blank_sweep (out out' : list byte) :
  sweep relief data p w h at_ out = Ok out' → blank out → blank out'.
Proof.
  intros Hrun Hc. unfold sweep in Hrun.
  refine (proj2 (for_each_invariant blank blank _ _ _ out out' Hrun) Hc).
  intros y' s s' Hy' Hrow. apply elem_of_seqZ in Hy'.
  assert (Hstep : blank s → blank s').
  { refine (proj2 (for_each_invariant blank blank _ _ _ s s' Hrow)).
    intros x' t t' Hx' Hpx. apply elem_of_seqZ in Hx'.
    assert (blank t → blank t') by (apply (blank_pixel_step x' y'); [lia | lia | exact Hpx]).
    auto. }
  auto.
Qed.

Lemma blank_replicate (n : nat) :
  Z.of_nat n = 4 * w * h → blank (replicate n x00%byte).
Proof.
  intros Hn. split; [rewrite length_replicate; exact Hn |].
  intros c Hc. apply lookup_replicate_2. nia.
Qed.

End OffGlobe.

Section Transparent.

Context `{D3}.

(** X16.  The composite paints no pixel off the globe: every pixel of the
    output whose point of the screen has no inverse projection is
    transparent black. *)
Theorem composite_transparent_off_globe (relief : Relief.t) (data : list byte)
    (p : Projection.t) (w h : Z) (at_ : Z → Z → number * number) (outImg : ImageData.t)
    (x y : Z) :
  composite relief data p w h at_ = Ok outImg →
  0 ≤ x < w → 0 ≤ y < h →
  d3_invert p (at_ x y) = None →
  pixel_at (ImageData.data outImg) (y * w + x) = Some (x00, x00, x00, x00)%byte.
Proof.
  unfold composite, createImageData. intros Hrun Hx Hy Hoff.
  destruct ((w =? 0) || (h =? 0)) eqn:E; [discriminate Hrun |].
  cbn [mbind result_bind ImageData.data ImageData.width ImageData.height] in Hrun.
  destruct (sweep _ _ _ _ _ _ _) as [out |] eqn:Hsw; [| discriminate Hrun].
  injection Hrun as <-. cbn [ImageData.data].
  assert (Hn : Z.of_nat (Z.to_nat (4 * Z.abs w * Z.abs h)) = 4 * w * h)
    by (rewrite !Z.abs_eq by lia; nia).
  destruct (blank_sweep relief data p w h at_ x y Hx Hy Hoff _ out Hsw
              (blank_replicate w h x y Hx Hy _ Hn)) as [_ Hz].
  unfold pixel_at. destruct (Z.ltb_spec (y * w + x) 0); [nia |].
  replace (Z.to_nat (4 * (y * w + x))) with (Z.to_nat ((y * w + x) * 4) + 0)%nat by lia.
  replace (Z.to_nat (4 * (y * w + x) + 1)) with (Z.to_nat ((y * w + x) * 4) + 1)%nat by lia.
  replace (Z.to_nat (4 * (y * w + x) + 2)) with (Z.to_nat ((y * w + x) * 4) + 2)%nat by lia.
  replace (Z.to_nat (4 * (y * w + x) + 3)) with (Z.to_nat ((y * w + x) * 4) + 3)%nat by lia.
  rewrite !Hz by lia. reflexivity.
Qed.

(** X17.  A render draws only when the tier it selects is ready: while the
    tier is not loaded or has no data the call returns with the globe
    untouched, the relief canvas not being needed; once the tier is ready a
    call without a relief canvas throws a [TypeError] with the globe
    untouched, and a call with one clears the view on it first, whatever
    happens afterwards. *)
Theorem drawRelief_when_ready (view : View.t) (p : Projection.t) (g : Globe.t) :
  let relief := if Globe.useReliefLo g then Globe.reliefLo g else Globe.reliefHi g in
  let r := drawRelief view p g in
  (Relief.loaded relief = false ∨ Relief.data relief = None → r = (g, Ok ()))
  ∧ (Relief.loaded relief = true → Relief.data relief ≠ None →
     Globe.reliefCanvas g = None → r = (g, Throw TypeError))
  ∧ (Relief.loaded relief = true → Relief.data relief ≠ None →
     ∀ ctx, Globe.reliefCanvas g = Some ctx →
       ∃ ctx' ops,
         Globe.reliefCanvas r.1 = Some ctx'
         ∧ Canvas.drawn ctx'
           = Canvas.drawn ctx
             ++ ClearRect 0 0 (View.width view) (View.height view) :: ops).
Proof.
  destruct g as [hi lo useLo fs fc rc cache proj np cen ext].
  cbn zeta. unfold drawRelief.
  cbn [Globe.useReliefLo Globe.reliefLo Globe.reliefHi
    Globe.reliefCanvas Globe.reliefFastCanvas Globe.reliefCache
    Globe.set_reliefCanvas Globe.set_reliefFastCanvas Globe.set_reliefCache].
  set (relief := if useLo then lo else hi).
  split; [| split].
  - intros [Hl | Hd].
    + rewrite Hl. reflexivity.
    + rewrite Hd. destruct (Relief.loaded relief); reflexivity.
  - intros Hl Hd [= ->]. rewrite Hl.
    destruct (Relief.data relief); [reflexivity | congruence].
  - intros Hl Hd ctx [= ->]. rewrite Hl.
    destruct (Relief.data relief) as [data |]; [| congruence].
    destruct useLo.
    + destruct fc as [fast |];
        [| eexists _, []; split; reflexivity].
      destruct (composite _ _ _ _ _ _);
        eexists _, _; (split; [reflexivity |]); cbn [Canvas.draw Canvas.drawn
          Canvas.set_imageSmoothingEnabled]; rewrite <- ?app_assoc; reflexivity.
    + destruct (cache_hit _ _);
        [eexists _, _; (split; [reflexivity |]); cbn [Canvas.draw Canvas.drawn];
         rewrite <- ?app_assoc; reflexivity |].
      destruct (composite _ _ _ _ _ _);
        eexists _, _; (split; [reflexivity |]); cbn [Canvas.draw Canvas.drawn];
          rewrite <- ?app_assoc; reflexivity.
Qed.

(** X18.  A render changes nothing of the globe but the two canvases and
    the cache: the projection, the tiers, the flag and the methods stay, and
    so do the sizes of the canvases, which only [initReliefCanvas] sets. *)
Theorem drawRelief_frame (view : View.t) (p : Projection.t) (g : Globe.t) :
  let g' := (drawRelief view p g).1 in
  Globe.projection g' = Globe.projection g
  ∧ Globe.reliefHi g' = Globe.reliefHi g ∧ Globe.reliefLo g' = Globe.reliefLo g
  ∧ Globe.useReliefLo g' = Globe.useReliefLo g
  ∧ Globe.reliefFastScale g' = Globe.reliefFastScale g
  ∧ Globe.newProjection g' = Globe.newProjection g
  ∧ Globe.center g' = Globe.center g ∧ Globe.scaleExtent g' = Globe.scaleExtent g
  ∧ (Canvas.width <$> Globe.reliefCanvas g') = (Canvas.width <$> Globe.reliefCanvas g)
  ∧ (Canvas.height <$> Globe.reliefCanvas g') = (Canvas.height <$> Globe.reliefCanvas g)
  ∧ (Canvas.width <$> Globe.reliefFastCanvas g')
    = (Canvas.width <$> Globe.reliefFastCanvas g)
  ∧ (Canvas.height <$> Globe.reliefFastCanvas g')
    = (Canvas.height <$> Globe.reliefFastCanvas g).
Proof.
  destruct g as [hi lo useLo fs fc rc cache proj np cen ext].
  cbn zeta. unfold drawRelief.
  cbn [Globe.useReliefLo Globe.reliefLo Globe.reliefHi
    Globe.reliefCanvas Globe.reliefFastCanvas Globe.reliefCache
    Globe.set_reliefCanvas Globe.set_reliefFastCanvas Globe.set_reliefCache].
  destruct (Relief.loaded _); [| repeat split].
  destruct (Relief.data _); [| repeat split].
  destruct rc as [ctx |]; [| repeat split].
  destruct useLo.
  - destruct fc as [fast |]; [| repeat split].
    destruct (composite _ _ _ _ _ _); repeat split.
  - destruct (cache_hit _ _); [repeat split |].
    destruct (composite _ _ _ _ _ _); repeat split.
Qed.

End Transparent.

Section RendersOnChart.

#[local] Existing Instance chart_d3.

Lemma fullres_render_returns_witness :
  (drawRelief relief_view (relief_projection 90) (relief_globe false)).2 = Ok ().
Proof.
  refine (proj1 (fullres_render_returns relief_view (relief_projection 90)
                   (relief_globe false)
                   [ x01; x02; x03; xff;  x11; x12; x13; x80;
                     x21; x22; x23; x05;  x31; x32; x33; x00 ]%byte
                   (Canvas.make 4 2 true []) eq_refl eq_refl eq_refl _ eq_refl) _ _);
    [discriminate | simpl; lia | simpl; lia].
Defined.

Lemma repeated_render_is_cached_witness :
  let r1 := drawRelief relief_view (relief_projection 90) (relief_globe false) in
  let r2 := drawRelief relief_view (relief_projection 90) r1.1 in
  ∃ img ctx ops,
    Globe.reliefCache r1.1 !! getReliefCacheKey (relief_projection 90) relief_view = Some img
    ∧ Globe.reliefCanvas r1.1 = Some ctx
    ∧ Canvas.drawn ctx = ops ++ [PutImageData img 0 0]
    ∧ r2.2 = Ok ()
    ∧ Globe.reliefCache r2.1 = Globe.reliefCache r1.1
    ∧ Globe.reliefCanvas r2.1
      = Some (Canvas.draw (PutImageData img 0 0)
                (Canvas.draw (ClearRect 0 0 4 2) ctx)).
Proof.
  cbn zeta.
  refine (repeated_render_is_cached relief_view (relief_projection 90)
            (relief_globe false)
            [ x01; x02; x03; xff;  x11; x12; x13; x80;
              x21; x22; x23; x05;  x31; x32; x33; x00 ]%byte
            eq_refl eq_refl eq_refl _ _ _);
    [simpl; lia | simpl; lia | vm_compute; reflexivity].
Defined.

Lemma render_after_clear_witness :
  let r := drawRelief relief_view (relief_projection 90)
             (clearReliefCache (relief_globe false)) in
  ∃ outImg,
    composite chart_relief
      [ x01; x02; x03; xff;  x11; x12; x13; x80;
        x21; x22; x23; x05;  x31; x32; x33; x00 ]%byte
      (relief_projection 90) 4 2 at_full = Ok outImg
    ∧ Globe.reliefCache r.1
      = {[ getReliefCacheKey (relief_projection 90) relief_view := outImg ]}
    ∧ Globe.reliefCanvas r.1
      = Some (Canvas.draw (PutImageData outImg 0 0)
                (Canvas.draw (ClearRect 0 0 4 2) (Canvas.make 4 2 true []))).
Proof.
  cbn zeta.
  refine (render_after_clear relief_view (relief_projection 90) (relief_globe false)
            [ x01; x02; x03; xff;  x11; x12; x13; x80;
              x21; x22; x23; x05;  x31; x32; x33; x00 ]%byte
            (Canvas.make 4 2 true []) eq_refl eq_refl eq_refl eq_refl _).
  vm_compute. reflexivity.
Defined.

(** A view of four by two pixels has a fast canvas of one pixel by one; a
    view of one pixel has an empty one. *)
Lemma lowres_render_needs_two_pixels_witness :
  (drawRelief relief_view (relief_projection 90)
     (initReliefCanvas relief_view (relief_globe true))).2 = Ok ()
  ∧ (drawRelief (View.make 1 1) (relief_projection 90)
       (initReliefCanvas (View.make 1 1) (relief_globe true))).2 = Throw IndexSizeError.
Proof.
  split.
  - refine (proj1 (proj2 (proj2
              (lowres_render_needs_two_pixels relief_view (relief_projection 90)
                 (relief_globe true)
                 [ x01; x02; x03; xff;  x11; x12; x13; x80;
                   x21; x22; x23; x05;  x31; x32; x33; x00 ]%byte
                 eq_refl eq_refl eq_refl _ eq_refl _ _))) _ _);
      [discriminate | simpl; lia .. ].
  - refine (proj2 (proj2 (proj2
              (lowres_render_needs_two_pixels (View.make 1 1) (relief_projection 90)
                 (relief_globe true)
                 [ x01; x02; x03; xff;  x11; x12; x13; x80;
                   x21; x22; x23; x05;  x31; x32; x33; x00 ]%byte
                 eq_refl eq_refl eq_refl _ eq_refl _ _))) _);
      [discriminate | simpl; lia | simpl; lia | left; simpl; lia].
Defined.

(** At the scale one the chart shows 150 degrees a pixel: the first pixel
    of the view is off the globe. *)
Lemma composite_transparent_off_globe_witness :
  ∃ outImg,
    composite chart_relief
      [ x01; x02; x03; xff;  x11; x12; x13; x80;
        x21; x22; x23; x05;  x31; x32; x33; x00 ]%byte
      (Projection.set_scale (zn 1) (relief_projection 90)) 4 2 at_full = Ok outImg
    ∧ pixel_at (ImageData.data outImg) 0 = Some (x00, x00, x00, x00)%byte.
Proof.
  destruct (composite_returns chart_relief
              [ x01; x02; x03; xff;  x11; x12; x13; x80;
                x21; x22; x23; x05;  x31; x32; x33; x00 ]%byte
              (Projection.set_scale (zn 1) (relief_projection 90)) 4 2 at_full)
    as (outImg & Hc & _); [discriminate | lia | lia |].
  exists outImg. split; [exact Hc |].
  apply (composite_transparent_off_globe _ _ _ 4 2 at_full outImg 0 0 Hc);
    [lia | lia | reflexivity].
Defined.

End RendersOnChart.

Lemma raster_lookup_in_range_witness :
  ∃ i j : Z,
    raster_column 2048 (Fin (- (7399 # 100))) = zn i
    ∧ raster_row 1024 (Fin (4073 # 100)) = zn j
    ∧ 0 ≤ i < 2048 ∧ 0 ≤ j < 1024.
Proof.
  destruct (raster_lookup_in_range 2048 1024 (- (7399 # 100)) (4073 # 100))
    as (i & j & Hi & Hj & Bi & Bj & _);
    [lia | lia | split; apply Qle_bool_iff; reflexivity
     | split; apply Qle_bool_iff; reflexivity |].
  exists i, j. auto.
Defined.

Lemma fast_samples_in_view_witness :
  ∃ sx sy : Q,
    at_fast 200 100 (View.make 800 400) 199 99 = (Fin sx, Fin sy)
    ∧ (0 <= sx < 800)%Q ∧ (0 <= sy < 400)%Q.
Proof.
  destruct (fast_samples_in_view 200 100 (View.make 800 400) 199 99)
    as (sx & sy & E & _ & _ & Bx & By); [lia | lia | simpl; lia | simpl; lia |].
  exists sx, sy. auto.
Defined.

(** ** Loading the relief images *)

Section Loading.

Lemma loads_snoc (events : list Load.t) (e : Load.t) (s : Globe.t * Loader.t) :
  loads (events ++ [e]) s = (onload e (loads events s)).1.
Proof. unfold loads. rewrite foldl_app. reflexivity. Qed.

(** X19.  [loadReliefImages] joins the two loads.  It requests the tiers
    that are not loaded, the high one first, and calls the callback at once
    only if both are loaded already.  For load events of requested tiers,
    one at most for each and none for an empty image, in any order, the
    callback has been called once when all the requested tiers have
    loaded, and not before; then both tiers are loaded and have their
    data. *)
Theorem loadReliefImages_joins (g : Globe.t) :
  let r := loadReliefImages true g in
  let pending := unloaded g in
  r.2 = (fun t => (t, src t)) <$> pending
  ∧ Loader.called r.1.2 = (if pending is [] then 1 else 0)%nat
  ∧ ∀ events : list Load.t,
      NoDup (Load.of_tier <$> events) →
      (∀ e, e ∈ events →
         Load.of_tier e ∈ pending ∧ 0 < Load.width e ∧ 0 < Load.height e) →
      let s := loads events r.1 in
      Loader.called s.2
      = (if (length events =? length pending)%nat then 1 else 0)%nat
      ∧ (length events = length pending →
         ∀ t, Relief.loaded (tier_of t s.1) = true
              ∧ ∀ e, e ∈ events → Load.of_tier e = t →
                     Relief.data (tier_of t s.1) = Some (Load.pixels e)
                     ∧ Relief.img (tier_of t s.1)
                       = Some (Load.width e, Load.height e)).
Proof.
  destruct g as [[hi_img hi_data hi_loaded] [lo_img lo_data lo_loaded]
                 useLo fs fc rc cache proj np cen ext].
  cbn zeta.
  destruct hi_loaded, lo_loaded;
    (split; [reflexivity |]); (split; [reflexivity |]);
    intros events Hnd Hev.
  all: destruct events as [| [t1 w1 h1 px1] [| [t2 w2 h2 px2] [| e3 events]]].
  all: try (split; [reflexivity |]; cbn; intros E t;
            first [ discriminate E
                  | split; [destruct t; reflexivity | intros e He; inversion He] ]).
  all: destruct (Hev _ ltac:(left)) as (In1 & W1 & H1);
    cbn in In1, W1, H1.
  all: try (destruct (Hev _ ltac:(right; left)) as (In2 & W2 & H2);
            cbn in In2, W2, H2).
  all: try (destruct (Hev _ ltac:(right; right; left)) as (In3 & _ & _);
            cbn in In3).
  all: cbn in Hnd.
  all: repeat match goal with
         | H : _ ∈ [] |- _ => inversion H
         | H : _ ∈ _ :: _ |- _ => apply elem_of_cons in H as [H | H]
         | H : Hi = Lo |- _ => discriminate H
         | H : Lo = Hi |- _ => discriminate H
         | H : ?t = _ |- _ => is_var t; subst t
         | H : Load.of_tier ?e = _ |- _ => destruct e; cbn in H
         end.
  all: try (exfalso; apply NoDup_cons in Hnd as [N Hnd];
            first [ apply N; left
                  | apply N; right; left
                  | apply NoDup_cons in Hnd as [N' _]; apply N'; left ]).
  all: unfold loads, onload, loadReliefImages, request, checkDone;
    cbn [foldl fst snd Load.of_tier Load.width Load.height Load.pixels tier_of set_tier
         Globe.reliefHi Globe.reliefLo Globe.useReliefLo Globe.set_relief
         Relief.loaded Relief.data Relief.img negb
         Loader.loadedCount Loader.callback Loader.called].
  all: repeat match goal with
         | Hw : 0 < ?w |- context [?w =? 0] =>
             destruct (Z.eqb_spec w 0); [lia |]
         end.
  all: cbn.
  all: split; [reflexivity |]; intros E; try discriminate E.
  all: intros t; split; [destruct t; reflexivity |].
  all: intros e He Ht; subst t.
  all: repeat (apply elem_of_cons in He as [-> | He]); try (inversion He; fail).
  all: try (split; reflexivity).
  all: try discriminate.
Qed.

End Loading.

Section MapsAndRelief.

Context `{D3}.

(** The globes of the registry start without a relief canvas. *)
Lemma registry_no_canvas (name : string) (ctor : Z → View.t → result Globe.t)
    (tz : Z) (view : View.t) (g : Globe.t) :
  globes !! name = Some ctor → ctor tz view = Ok g →
  Globe.reliefCanvas g = None ∧ Globe.reliefCache g = ∅.
Proof.
  intros Hl. apply registry_lookup in Hl. unfold registry in Hl.
  repeat (apply elem_of_cons in Hl as [E | Hl]; [inversion E; subst; clear E |]).
  all: try (inversion Hl).
  all: intros [= <-]; split; reflexivity.
Qed.

(** A full-resolution render after [initReliefCanvas] returns. *)
Lemma render_after_init (view : View.t) (p : Projection.t) (g : Globe.t)
    (data : list byte) :
  Globe.useReliefLo g = false →
  Relief.loaded (Globe.reliefHi g) = true →
  Relief.data (Globe.reliefHi g) = Some data →
  Relief.img (Globe.reliefHi g) ≠ None →
  0 < View.width view → 0 < View.height view →
  (drawRelief view p (initReliefCanvas view g)).2 = Ok ().
Proof.
  intros Hlo Hloaded Hdata Himg Hw Hh.
  destruct g as [hi lo useLo fs fc rc cache proj np cen ext].
  cbn [Globe.useReliefLo Globe.reliefHi] in *. subst useLo.
  unfold initReliefCanvas, drawRelief.
  cbn [Globe.useReliefLo Globe.reliefLo Globe.reliefHi
    Globe.reliefCanvas Globe.reliefFastCanvas Globe.reliefCache
    Globe.set_reliefCanvas Globe.set_reliefFastCanvas Globe.set_reliefCache].
  rewrite Hloaded, Hdata. destruct (cache_hit _ _); [reflexivity |].
  destruct (composite_returns hi data p _ _ at_full Himg Hw Hh) as (outImg & -> & _).
  reflexivity.
Qed.

(** X20.  Only the standard [defineMap] initializes the relief canvas.
    With the high tier loaded, a globe of the registry whose map has been
    defined for a view that is not empty renders its relief, unless it is
    the orthographic or the waterman globe: their own [defineMap] leaves
    the globe without a relief canvas, and the render throws a
    [TypeError]. *)
Theorem defineMap_relief_canvas (name : string) (ctor : Z → View.t → result Globe.t)
    (tz : Z) (view : View.t) (g0 : Globe.t) (mapSvg foregroundSvg : Svg.element)
    (hi lo : Relief.t) (data : list byte) (p : Projection.t) :
  globes !! name = Some ctor → ctor tz view = Ok g0 →
  Relief.loaded hi = true → Relief.data hi = Some data → Relief.img hi ≠ None →
  0 < View.width view → 0 < View.height view →
  let g := (defineMap_of name mapSvg foregroundSvg (Some view)
              (Globe.set_relief hi lo false g0)).2 in
  let r := drawRelief view p g in
  if String.eqb name "orthographic" || String.eqb name "waterman"
  then Globe.reliefCanvas g = None ∧ r = (g, Throw TypeError)
  else Globe.reliefCanvas g
       = Some (Canvas.make (View.width view) (View.height view) true [])
       ∧ r.2 = Ok ().
Proof.
  intros Hl Hctor Hloaded Hdata Himg Hw Hh. cbn zeta.
  destruct (registry_no_canvas name ctor tz view g0 Hl Hctor) as [Hrc _].
  unfold defineMap_of.
  destruct (String.eqb name "orthographic"); [| destruct (String.eqb name "waterman")];
    cbn [orb snd orthographic_defineMap waterman_defineMap defineMap].
  - split; [exact Hrc |]. unfold drawRelief.
    destruct g0. cbn in Hrc. subst. cbn. rewrite Hloaded, Hdata. reflexivity.
  - split; [exact Hrc |]. unfold drawRelief.
    destruct g0. cbn in Hrc. subst. cbn. rewrite Hloaded, Hdata. reflexivity.
  - split.
    + destruct g0. cbn in Hrc. subst. reflexivity.
    + apply (render_after_init view p _ data); try assumption; destruct g0; reflexivity.
Qed.

End MapsAndRelief.

Section MapsOnChart.

#[local] Existing Instance chart_d3.

Lemma defineMap_relief_canvas_witness :
  ∃ g0 g,
    @orthographic chart_d3 0 relief_view = Ok g0
    ∧ g = (defineMap_of "orthographic" (Svg.create "svg") (Svg.create "svg")
             (Some relief_view) (Globe.set_relief chart_relief chart_relief false g0)).2
    ∧ Globe.reliefCanvas g = None
    ∧ drawRelief relief_view (relief_projection 90) g = (g, Throw TypeError).
Proof.
  eexists _, _. split; [reflexivity |]. split; [reflexivity |].
  refine (defineMap_relief_canvas "orthographic" orthographic 0 relief_view _
            (Svg.create "svg") (Svg.create "svg") chart_relief chart_relief
            [ x01; x02; x03; xff;  x11; x12; x13; x80;
              x21; x22; x23; x05;  x31; x32; x33; x00 ]%byte
            (relief_projection 90) eq_refl eq_refl eq_refl eq_refl _ _ _);
    [discriminate | simpl; lia | simpl; lia].
Defined.

End MapsOnChart.

Section Locating.

Context `{D3}.

(** X21.  The [locate] of the orthographic globe and [orientation] agree:
    once the projection is rotated by what [locate] returns for a
    longitude and a latitude of hundredths, the orientation string reads
    that longitude and latitude; the roll is kept. *)
Theorem orthographic_locate_centres (g : Globe.t) (p : Projection.t) (lon lat : Z) :
  Globe.projection g = Some p →
  Z.abs lon < 10 ^ 23 → Z.abs lat < 10 ^ 23 →
  ∃ r,
    orthographic_locate (Fin (lon # 100), Fin (lat # 100)) g = Ok (Some r)
    ∧ (Projection.rotate (Projection.set_rotate r p)).2 = (Projection.rotate p).2
    ∧ orientation_get (Globe.set_projection (Some (Projection.set_rotate r p)) g)
      = Ok (join "," [ hundredths_string lon; hundredths_string lat;
                       ToString.of_number (Num.round (Projection.scale p)) ]).
Proof.
  intros Hp Hlon Hlat. unfold orthographic_locate. rewrite Hp.
  cbn [deref mbind result_bind mret result_ret fst snd].
  eexists. split; [reflexivity |]. split; [reflexivity |].
  unfold orientation_get.
  cbn [Globe.projection Globe.set_projection deref mbind result_bind mret result_ret
       Projection.rotate Projection.scale Projection.set_rotate
       lookup list_lookup default from_option fst snd Num.neg].
  change (id (Fin ?x)) with (Fin x). cbn [Num.neg].
  rewrite (toFixed2_hundredths _ lon) by (rewrite ?Qred_correct; try ring; exact Hlon).
  rewrite (toFixed2_hundredths _ lat) by (rewrite ?Qred_correct; try ring; exact Hlat).
  reflexivity.
Qed.

End Locating.

Section LocatingOnChart.

#[local] Existing Instance chart_d3.

Lemma orthographic_locate_centres_witness :
  ∃ r,
    orthographic_locate (Fin (-7399 # 100), Fin (4073 # 100)) chart_globe = Ok (Some r)
    ∧ orientation_get
        (Globe.set_projection
           (Some (Projection.set_rotate r
                    (Projection.make Equirectangular (Fin 0, Fin 0, Fin 0) (zn 150)
                       (zn 480, zn 250) (Fin (1 # 10)) None None))) chart_globe)
      = Ok "-73.99,40.73,150"%string.
Proof.
  destruct (orthographic_locate_centres chart_globe
              (Projection.make Equirectangular (Fin 0, Fin 0, Fin 0) (zn 150)
                 (zn 480, zn 250) (Fin (1 # 10)) None None)
              (-7399) 4073 eq_refl ltac:(simpl; lia) ltac:(simpl; lia))
    as (r & Hr & _ & Ho).
  exists r. split; [exact Hr | exact Ho].
Defined.

End LocatingOnChart.

Section MapElements.

(** X22.  The three [defineMap] methods keep what is there and append
    elements that fit together: the map gets first a [defs] element with
    the path of id [sphere], bound to the sphere and drawn with the
    current projection, and among its other new children one path of
    class [coastline] and one of class [lakes], both without datum, for
    the caller to fill; the foreground gets one [use] of [#sphere] of
    class [foreground-sphere]. *)
Theorem defineMap_elements (name : string) (mapSvg foregroundSvg : Svg.element)
    (view : option View.t) (g : Globe.t) :
  let r := defineMap_of name mapSvg foregroundSvg view g in
  let sphere :=
    Svg.Element "path"
      [("id", Svg.Text "sphere");
       ("d", Svg.Path (Globe.projection g) (Some Svg.Sphere))]
      (Some Svg.Sphere) [] in
  ∃ defs added,
    Svg.children r.1.1 = Svg.children mapSvg ++ defs :: added
    ∧ Svg.tag defs = "defs"%string ∧ sphere ∈ Svg.children defs
    ∧ (∃ a, Svg.of_class "coastline" added = [Svg.Element "path" a None []])
    ∧ (∃ a, Svg.of_class "lakes" added = [Svg.Element "path" a None []])
    ∧ Svg.tag r.1.1 = Svg.tag mapSvg ∧ Svg.attrs r.1.1 = Svg.attrs mapSvg
    ∧ Svg.children r.1.2
      = Svg.children foregroundSvg
        ++ [Svg.Element "use"
              [("xlink:href", Svg.Text "#sphere"); ("class", Svg.Text "foreground-sphere")]
              None []].
Proof.
  cbn zeta. unfold defineMap_of.
  destruct (String.eqb name "orthographic"); [| destruct (String.eqb name "waterman")].
  all: destruct mapSvg as [mt ma md mc], foregroundSvg as [ft fa fd fc].
  all: eexists _, _; cbn; rewrite <- ?app_assoc; cbn;
    repeat split; try (eexists; reflexivity); set_solver.
Qed.

End MapElements.

(** ** Bounds within the view *)

Section BoundsInside.

Local Open Scope Q_scope.

(** X23.  Finite bounds that lie within the view are rounded outwards to
    whole pixels and not cut: the rectangle runs from the floor of the
    upper left corner to the ceiling of the lower right one, so bounds of
    whole pixels are returned as they are. *)
Theorem clampedBounds_inside_view (x0 y0 x1 y1 : Q) (v : View.t) :
  0 <= x0 → 0 <= y0 →
  x1 <= inject_Z (View.width v) - 1 → y1 <= inject_Z (View.height v) - 1 →
  let r := clampedBounds ((Fin x0, Fin y0), (Fin x1, Fin y1)) v in
  Rect.x r =n= zn (Qfloor x0) ∧ Rect.y r =n= zn (Qfloor y0)
  ∧ Rect.xMax r =n= zn (Qceiling x1) ∧ Rect.yMax r =n= zn (Qceiling y1)
  ∧ Rect.width r =n= zn (Qceiling x1 - Qfloor x0 + 1)
  ∧ Rect.height r =n= zn (Qceiling y1 - Qfloor y0 + 1).
Proof.
  intros Hx0 Hy0 Hx1 Hy1. cbn zeta.
  assert (L : ∀ a : Q, 0 <= a →
            Num.max (Num.floor (ensureNumber (Fin a) (zn 0))) (zn 0) =n= zn (Qfloor a)).
  { intros a Ha. unfold ensureNumber, zn. simpl.
    assert (F : (0 ≤ Qfloor a)%Z).
    { apply Qfloor_resp_le in Ha. exact Ha. }
    destruct (Qle_bool _ _) eqn:E; simpl; [| reflexivity].
    q_props. change 0 with (inject_Z 0) in E. rewrite <- Zle_Qle in E.
    assert (Qfloor a = 0%Z) as -> by lia. reflexivity. }
  assert (U : ∀ (a : Q) (w : Z), a <= inject_Z w - 1 →
            Num.min (Num.ceil (ensureNumber (Fin a) (zn w))) (zn w - zn 1)
            =n= zn (Qceiling a)).
  { intros a w Ha. unfold ensureNumber, zn. simpl.
    assert (C : (Qceiling a ≤ w - 1)%Z).
    { apply Qceiling_resp_le in Ha.
      rewrite <- inject_Z_pred, Qceiling_Z in Ha. exact Ha. }
    destruct (Qle_bool _ _) eqn:E; simpl; [reflexivity |].
    q_props. pose proof (inject_Z_pred w) as P.
    assert (C' : inject_Z (Qceiling a) <= inject_Z (w - 1)) by (rewrite <- Zle_Qle; exact C).
    lra. }
  assert (W : ∀ (a b : number) (i j : Z),
            a =n= zn i → b =n= zn j → (b - a + zn 1)%num =n= zn (j - i + 1)).
  { intros a b i j Ha Hb.
    assert (Hz : inject_Z (j - i + 1) == inject_Z j - inject_Z i + 1).
    { unfold Z.sub. rewrite !inject_Z_plus, inject_Z_opp. reflexivity. }
    destruct a as [| |qa|], b as [| |qb|]; unfold zn in *;
      cbn [same Num.add Num.sub Num.neg] in *; try contradiction.
    rewrite !Qred_correct, Hz, Ha, Hb. change (inject_Z 1) with 1. ring. }
  unfold clampedBounds; cbn [Rect.x Rect.y Rect.xMax Rect.yMax Rect.width Rect.height fst snd].
  pose proof (L x0 Hx0). pose proof (L y0 Hy0).
  pose proof (U x1 _ Hx1). pose proof (U y1 _ Hy1).
  repeat split; try assumption; apply W; assumption.
Qed.

End BoundsInside.

Lemma clampedBounds_inside_view_witness :
  let r := clampedBounds ((Fin (19 # 2), Fin 3), (Fin (21 # 2), Fin 7)) (View.make 800 400) in
  Rect.x r =n= zn 9 ∧ Rect.y r =n= zn 3
  ∧ Rect.xMax r =n= zn 11 ∧ Rect.yMax r =n= zn 7
  ∧ Rect.width r =n= zn 3 ∧ Rect.height r =n= zn 5.
Proof.
  cbn zeta.
  apply (clampedBounds_inside_view (19 # 2) 3 (21 # 2) 7 (View.make 800 400));
    apply Qle_bool_iff; reflexivity.
Defined.

(** ** The scale that an orientation sets *)

Section ScaleSet.

Context `{D3}.

Local Open Scope Q_scope.


End ScaleSet.

Section ScaleSetOnChart.

#[local] Existing Instance chart_d3.


End ScaleSetOnChart.

(** ** The scale that fits *)

Section Fit.

Context `{D3}.

Local Open Scope Q_scope.


End Fit.

Section FitOnChart.

#[local] Existing Instance chart_d3.


End FitOnChart.

(** ** What the cache key tells apart *)

Section KeyedStates.

Context `{D3}.

Lemma same_key (p q : Projection.t) (view : View.t) :
  Projection.rotate q = Projection.rotate p →
  Projection.scale q = Projection.scale p →
  Projection.translate q = Projection.translate p →
  getReliefCacheKey q view = getReliefCacheKey p view.
Proof.
  intros Hr Hs Ht. unfold getReliefCacheKey, Projection.rotate_array.
  rewrite Hr, Hs, Ht. reflexivity.
Qed.

(** X28.  The cache key is made of the rotation, the scale, the translation
    and the size of the view, and of nothing else of the projection: after a
    full-resolution render that returns, a render with any projection that
    has the same rotation, scale and translation, whatever its kind, its
    clipping and its inverse, is a cache hit and puts the buffer of the
    first render on the canvas. *)
Theorem cache_key_ignores_kind (view : View.t) (p q : Projection.t) (g : Globe.t)
    (data : list byte) :
  Globe.useReliefLo g = false →
  Relief.loaded (Globe.reliefHi g) = true →
  Relief.data (Globe.reliefHi g) = Some data →
  0 ≤ View.width view → 0 ≤ View.height view →
  Projection.rotate q = Projection.rotate p →
  Projection.scale q = Projection.scale p →
  Projection.translate q = Projection.translate p →
  let r1 := drawRelief view p g in
  let r2 := drawRelief view q r1.1 in
  r1.2 = Ok () →
  getReliefCacheKey q view = getReliefCacheKey p view
  ∧ ∃ img ctx ops,
      Globe.reliefCanvas r1.1 = Some ctx
      ∧ Canvas.drawn ctx = ops ++ [PutImageData img 0 0]
      ∧ r2.2 = Ok ()
      ∧ Globe.reliefCache r2.1 = Globe.reliefCache r1.1
      ∧ Globe.reliefCanvas r2.1
        = Some (Canvas.draw (PutImageData img 0 0)
                  (Canvas.draw (ClearRect 0 0 (View.width view) (View.height view)) ctx)).
Proof.
  intros Hlo Hloaded Hdata Hw Hh Hr Hs Ht.
  pose proof (same_key p q view Hr Hs Ht) as Hkey.
  destruct g as [hi lo useLo fs fc rc cache proj np cen ext].
  cbn [Globe.useReliefLo Globe.reliefHi] in *. subst useLo.
  cbn zeta. destruct (drawRelief view p _) as [g1 res] eqn:E1.
  cbn [fst snd]. intros ->. split; [exact Hkey |]. revert E1. unfold drawRelief at 1.
  cbn [Globe.useReliefLo Globe.reliefLo Globe.reliefHi
    Globe.reliefCanvas Globe.reliefFastCanvas Globe.reliefCache
    Globe.set_reliefCanvas Globe.set_reliefFastCanvas Globe.set_reliefCache].
  rewrite Hloaded, Hdata.
  destruct rc as [ctx |]; [| intros [=]].
  destruct (cache_hit (cache !! _) view) as [cached |] eqn:Hhit.
  - intros [= <-]. eexists cached, _, _.
    split; [reflexivity |]. split; [reflexivity |].
    unfold drawRelief.
    cbn [Globe.useReliefLo Globe.reliefLo Globe.reliefHi
      Globe.reliefCanvas Globe.reliefFastCanvas Globe.reliefCache
      Globe.set_reliefCanvas Globe.set_reliefFastCanvas Globe.set_reliefCache].
    rewrite Hloaded, Hdata, Hkey, Hhit. repeat split.
  - destruct (composite hi data p _ _ at_full) as [outImg |] eqn:Hc; [| intros [=]].
    intros [= <-].
    assert (Hdim : ImageData.width outImg = View.width view
                   ∧ ImageData.height outImg = View.height view).
    { unfold composite, createImageData in Hc.
      destruct ((View.width view =? 0) || (View.height view =? 0)); [discriminate Hc |].
      cbn [mbind result_bind ImageData.data ImageData.width ImageData.height] in Hc.
      destruct (sweep _ _ _ _ _ _ _); [| discriminate Hc].
      injection Hc as <-. cbn [ImageData.width ImageData.height].
      rewrite !Z.abs_eq by lia. split; reflexivity. }
    eexists outImg, _, _.
    split; [reflexivity |]. split; [reflexivity |].
    unfold drawRelief.
    cbn [Globe.useReliefLo Globe.reliefLo Globe.reliefHi
      Globe.reliefCanvas Globe.reliefFastCanvas Globe.reliefCache
      Globe.set_reliefCanvas Globe.set_reliefFastCanvas Globe.set_reliefCache].
    rewrite Hloaded, Hdata, Hkey, lookup_insert_eq.
    assert (Hhit' : cache_hit (Some outImg) view = Some outImg)
      by (apply cache_hit_Some; tauto).
    rewrite Hhit'. repeat split.
Qed.

End KeyedStates.

Section KeyedStatesOnChart.

#[local] Existing Instance chart_d3.

(** An orthographic projection with the parameters of the equirectangular
    one of the first render. *)
Lemma cache_key_ignores_kind_witness :
  let p := relief_projection 90 in
  let q := Projection.make Orthographic (Projection.rotate p) (Projection.scale p)
             (Projection.translate p) (Fin 1) (Some (zn 90)) None in
  let r1 := drawRelief relief_view p (relief_globe false) in
  let r2 := drawRelief relief_view q r1.1 in
  getReliefCacheKey q relief_view = getReliefCacheKey p relief_view
  ∧ ∃ img ctx ops,
      Globe.reliefCanvas r1.1 = Some ctx
      ∧ Canvas.drawn ctx = ops ++ [PutImageData img 0 0]
      ∧ r2.2 = Ok ()
      ∧ Globe.reliefCache r2.1 = Globe.reliefCache r1.1
      ∧ Globe.reliefCanvas r2.1
        = Some (Canvas.draw (PutImageData img 0 0)
                  (Canvas.draw (ClearRect 0 0 4 2) ctx)).
Proof.
  cbn zeta.
  refine (cache_key_ignores_kind relief_view (relief_projection 90) _ (relief_globe false)
            [ x01; x02; x03; xff;  x11; x12; x13; x80;
              x21; x22; x23; x05;  x31; x32; x33; x00 ]%byte
            eq_refl eq_refl eq_refl _ _ eq_refl eq_refl eq_refl _);
    [simpl; lia | simpl; lia | vm_compute; reflexivity].
Defined.

End KeyedStatesOnChart.

(** ** The catalog of the datasets *)

Section CatalogFacts.

Import Digits Catalog.

Local Open Scope string_scope.









(** Names that are no datasets do not count. *)
Lemma files_ignore (l1 l2 : list string) (f : string) :
  is_dataset f = false → files (l1 ++ f :: l2) = files (l1 ++ l2).
Proof.
  intros Hf. unfold files. rewrite !List.filter_app. cbn [List.filter]. rewrite Hf.
  reflexivity.
Qed.

(** X27.  The catalog does not list itself: once [catalog.json] is in the
    directory, wherever [readdirSync] reports it, a run does what it does
    without it. *)
Theorem catalog_ignores_itself (l1 l2 : list string) (write : string → result unit) :
  generateGIACatalog {| readdirSync := Ok (l1 ++ "catalog.json" :: l2)%list;
                        writeFileSync := write |}
  = generateGIACatalog {| readdirSync := Ok (l1 ++ l2)%list; writeFileSync := write |}.
Proof.
  unfold generateGIACatalog. cbn [readdirSync writeFileSync mbind result_bind].
  rewrite (files_ignore l1 l2 "catalog.json") by reflexivity. reflexivity.
Qed.

End CatalogFacts.

